(** * asm374: a shallow embedding of the assembler and its encoding properties

    The repository holds an assembler for a 32-bit instruction set, written
    in TypeScript.  The complete program (line parser, operand resolvers,
    encoder, bit packer, report) is [src/unnamed/part_000]; [src/asm374.ts]
    is a less complete variant of the same program, with no packer and a
    different branch layout, embedded in [Module Draft] below;
    [src/unnamed/part_001] is a still less complete one (no immediates) and
    [src/unnamed/part_002] is the program file that the assembler reads,
    whose lines serve as examples.

    Conventions of the embedding.
    - A JavaScript string is a [string]; one [ascii] stands for one code
      unit in the range 0..255.
    - A JavaScript number is a [number]: [NaN] or a mathematical integer.
      The program only ever builds integers (or NaN); the doubles of the
      source agree with the integers here while magnitudes stay below 2^53
      (above it the source rounds, and past about 1.8e308 it has the
      infinities, which the model lacks), and the theorems on the numbers
      that are built say so in a hypothesis (a register index below 2^53,
      values that fit their fields, fields of at most 53 bits in all).
      The two zeros of the source are one [Int 0].
    - A value that may be [undefined] at run time (an operand the line does
      not have) is a [jsval]; reading a property of [Undefined] throws a
      TypeError, as in the source.
    - [console.warn], [console.log] and [console.error] append an [event] to
      the console; an uncaught exception ends the run. *)

From Stdlib Require Import ZArith NArith List Lia Bool.
From Stdlib Require Import Strings.String Strings.Ascii.
Import ListNotations.

Open Scope string_scope.
Open Scope Z_scope.

(** ** JavaScript numbers *)

Inductive number : Type :=
| NaN : number
| Int (z : Z) : number.

Definition nadd (a b : number) : number :=
  match a, b with
  | Int x, Int y => Int (x + y)
  | _, _ => NaN
  end.

Definition nmul (a b : number) : number :=
  match a, b with
  | Int x, Int y => Int (x * y)
  | _, _ => NaN
  end.

(** [a >= 0]; every comparison with NaN is false. *)
Definition nge0 (a : number) : bool :=
  match a with
  | Int x => 0 <=? x
  | NaN => false
  end.

(** [Math.pow(2, n)] for a natural exponent. *)
Definition pow2 (n : N) : number := Int (2 ^ Z.of_N n).

(** ** JavaScript strings *)

Module JS.

Definition len (s : string) : Z := Z.of_nat (String.length s).

(** [s.indexOf(pat)]: position of the first occurrence, or -1. *)
Definition indexOf (s pat : string) : Z :=
  match String.index 0 pat s with
  | Some i => Z.of_nat i
  | None => -1
  end.

(** [s.includes(pat)] *)
Definition includes (s pat : string) : bool :=
  match String.index 0 pat s with
  | Some _ => true
  | None => false
  end.

(** [s.substr(start, length)]: a negative start counts from the end, the
    length is clamped to what is left, a negative length gives the empty
    string. *)
Definition substr (s : string) (start length : Z) : string :=
  let size := len s in
  let intStart := if start <? 0 then Z.max (size + start) 0 else Z.min start size in
  let intLength := Z.min (Z.max length 0) size in
  let intEnd := Z.min (intStart + intLength) size in
  String.substring (Z.to_nat intStart) (Z.to_nat (intEnd - intStart)) s.

(** [s.substr(start)]: to the end of the string. *)
Definition substrFrom (s : string) (start : Z) : string :=
  substr s start (len s).

(** [s[0]], [None] for the empty string. *)
Definition first (s : string) : option ascii :=
  match s with
  | String c _ => Some c
  | EmptyString => None
  end.

(** [s.replace(pat, rep)] with a string pattern: the first occurrence only.
    The replacement strings of the source hold no [$] pattern. *)
Definition replace (s pat rep : string) : string :=
  match String.index 0 pat s with
  | Some i =>
      String.substring 0 i s ++ rep
      ++ String.substring (i + String.length pat) (String.length s) s
  | None => s
  end.

(** White space and line terminators among the code units 0..255:
    TAB, LF, VT, FF, CR, SP and NBSP. *)
Definition isWhite (c : ascii) : bool :=
  match N_of_ascii c with
  | 9%N | 10%N | 11%N | 12%N | 13%N | 32%N | 160%N => true
  | _ => false
  end.

Fixpoint trimStart (s : string) : string :=
  match s with
  | String c s' => if isWhite c then trimStart s' else s
  | EmptyString => EmptyString
  end.

(** Drops trailing white space: a character is kept when the trimmed rest
    is not empty or the character itself is not white. *)
Fixpoint trimEnd (s : string) : string :=
  match s with
  | String c s' =>
      match trimEnd s' with
      | EmptyString => if isWhite c then EmptyString else String c EmptyString
      | r => String c r
      end
  | EmptyString => EmptyString
  end.

Definition trim (s : string) : string := trimEnd (trimStart s).

(** [s.split(sep)] for a separator of one character, the only kind the
    source uses: the result always has at least one element. *)
Fixpoint split (sep : ascii) (s : string) : list string :=
  match s with
  | EmptyString => [EmptyString]
  | String c s' =>
      if Ascii.eqb c sep then EmptyString :: split sep s'
      else match split sep s' with
           | h :: t => String c h :: t
           | [] => [String c EmptyString]
           end
  end.

Fixpoint repeatChar (c : ascii) (n : nat) : string :=
  match n with
  | O => EmptyString
  | S n' => String c (repeatChar c n')
  end.

(** [s.padEnd(n)] and [s.padStart(n, c)] with a one-character filler. *)
Definition padEnd (s : string) (n : Z) (c : ascii) : string :=
  s ++ repeatChar c (Z.to_nat (n - len s)).

Definition padStart (s : string) (n : Z) (c : ascii) : string :=
  repeatChar c (Z.to_nat (n - len s)) ++ s.

(** [parts.join(sep)] *)
Fixpoint join (sep : string) (parts : list string) : string :=
  match parts with
  | [] => EmptyString
  | [p] => p
  | p :: rest => p ++ sep ++ join sep rest
  end.

(** The binary numeral of a positive integer, most significant bit first. *)
Fixpoint binaryOfPos (p : positive) (acc : string) : string :=
  match p with
  | xH => String "1" acc
  | xO q => binaryOfPos q (String "0" acc)
  | xI q => binaryOfPos q (String "1" acc)
  end.

(** [x.toString(2)] *)
Definition toString2 (x : number) : string :=
  match x with
  | NaN => "NaN"
  | Int Z0 => "0"
  | Int (Zpos p) => binaryOfPos p EmptyString
  | Int (Zneg p) => String "-" (binaryOfPos p EmptyString)
  end.

(** *** Number.parseInt *)

(** The value of a character as a digit: 0-9, then a-z and A-Z for 10-35. *)
Definition digitValue (c : ascii) : option Z :=
  let n := Z.of_N (N_of_ascii c) in
  if (48 <=? n) && (n <=? 57) then Some (n - 48)
  else if (97 <=? n) && (n <=? 122) then Some (n - 87)
  else if (65 <=? n) && (n <=? 90) then Some (n - 55)
  else None.

Definition radixDigit (R : Z) (c : ascii) : option Z :=
  match digitValue c with
  | Some d => if d <? R then Some d else None
  | None => None
  end.

(** Reads the longest prefix of radix-[R] digits; [acc] is [None] until a
    digit has been read. *)
Fixpoint readDigits (R : Z) (s : string) (acc : option Z) : option Z :=
  match s with
  | String c s' =>
      match radixDigit R c with
      | Some d =>
          readDigits R s' (Some (match acc with Some a => a * R + d | None => d end))
      | None => acc
      end
  | EmptyString => acc
  end.

Definition stripSign (s : string) : Z * string :=
  match s with
  | String "-" r => (-1, r)
  | String "+" r => (1, r)
  | _ => (1, s)
  end.

Definition strip0x (s : string) : option string :=
  match s with
  | String "0" (String "x" r) => Some r
  | String "0" (String "X" r) => Some r
  | _ => None
  end.

(** [Number.parseInt(s, radix)]; radix 0 stands for an absent radix.
    Leading white space is skipped, a sign is read, a [0x] prefix is
    dropped when the radix is 16 or absent (and then makes it 16), and the
    longest prefix of digits is the value; no digit at all gives NaN. *)
Definition parseInt (s : string) (radix : Z) : number :=
  let '(sign, body) := stripSign (trimStart s) in
  if negb (radix =? 0) && ((radix <? 2) || (36 <? radix)) then NaN
  else
    let R := if radix =? 0 then 10 else radix in
    let stripPrefix := (radix =? 0) || (radix =? 16) in
    let '(R, body) :=
      match (if stripPrefix then strip0x body else None) with
      | Some r => (16, r)
      | None => (R, body)
      end in
    match readDigits R body None with
    | Some n => Int (sign * n)
    | None => NaN
    end.

End JS.

(** ** Exceptions and the console *)

Inductive exn : Type := TypeError.

Inductive result (A : Type) : Type :=
| Ret (a : A)
| Throw (e : exn).
Arguments Ret {A} a.
Arguments Throw {A} e.

Definition rbind {A B} (r : result A) (k : A -> result B) : result B :=
  match r with
  | Ret a => k a
  | Throw e => Throw e
  end.

Inductive event : Type :=
| Warn (msg : string)
| Log (msg : string)
| Error (msg : string).

(** A computation writes to the console and then returns or throws. *)
Definition M (A : Type) : Type := (list event * result A)%type.

Definition ret {A} (a : A) : M A := ([], Ret a).

Definition bind {A B} (m : M A) (k : A -> M B) : M B :=
  match m with
  | (out, Ret a) => let '(out', r) := k a in ((out ++ out')%list, r)
  | (out, Throw e) => (out, Throw e)
  end.

Definition lift {A} (r : result A) : M A := ([], r).

Definition console (e : event) : M unit := ([e], Ret tt).

Declare Scope js_scope.
Delimit Scope js_scope with js.
Notation "x <- m ;; k" := (bind m (fun x => k))
  (at level 61, m at next level, right associativity) : js_scope.
Notation "m ;;; k" := (bind m (fun _ => k))
  (at level 61, right associativity) : js_scope.
Notation "x <~ r ;; k" := (rbind r (fun x => k))
  (at level 61, r at next level, right associativity) : js_scope.

(** [xs.map(f)] for an [f] that may throw: elements are visited in order and
    the first exception ends the traversal. *)
Fixpoint mapM {A B} (f : A -> M B) (xs : list A) : M (list B) :=
  match xs with
  | [] => ret []
  | x :: rest =>
      bind (f x) (fun y => bind (mapM f rest) (fun ys => ret (y :: ys)))
  end.

(** ** Data of the assembler *)

(** A string or [undefined]: what [params[i]] is at run time. *)
Inductive jsval : Type :=
| Undefined
| Str (s : string).

Record instruction : Type := { op : string; params : list string }.

(** Widths are integer literals in the source. *)
Record field : Type := { bits : N; value : number }.

Record address : Type := { regField : field; immediateOffset : number }.

(** [params[i]] *)
Definition param (ps : list string) (i : nat) : jsval :=
  match nth_error ps i with
  | Some s => Str s
  | None => Undefined
  end.

(** ** Operand resolvers *)

(** [str[0]] of [undefined] throws. *)
Definition parseImmediate (str : jsval) : result number :=
  match str with
  | Undefined => Throw TypeError
  | Str s =>
      match JS.first s with
      | Some "$"%char => Ret (JS.parseInt (JS.substrFrom s 1) 16)
      | _ => Ret (JS.parseInt s 10)
      end
  end.

(** [reg.substr] of [undefined] throws. *)
Definition fieldFromRegister (reg : jsval) : result field :=
  match reg with
  | Undefined => Throw TypeError
  | Str s => Ret {| bits := 4; value := JS.parseInt (JS.substrFrom s 1) 0 |}
  end.

(** [param.includes] of [undefined] throws. *)
Definition parseAddress (param : jsval) : result address :=
  match param with
  | Undefined => Throw TypeError
  | Str s =>
      if JS.includes s "(" then
        (immediateOffset <~ parseImmediate (Str s) ;;
         let startIndex := JS.indexOf s "(" + 1 in
         let stopIndex := JS.indexOf s ")" in
         let length := stopIndex - startIndex in
         regField <~ fieldFromRegister (Str (JS.substr s startIndex length)) ;;
         Ret {| regField := regField; immediateOffset := immediateOffset |})%js
      else
        (immediateOffset <~ parseImmediate (Str s) ;;
         Ret {| regField := {| bits := 4; value := Int 0 |};
                immediateOffset := immediateOffset |})%js
  end.


(** ** Instruction-format tables *)

(** A table read with [TABLE[key]].  A key the table lacks reads as
    [undefined] in the source (or as a property of [Object.prototype]);
    that only happens for [OP_TABLE] in the default case of
    [assembleInstruction], which drops the field holding it, so [NaN]
    stands for it here and is never part of a result. *)
Definition table : Type := list (string * Z).

Fixpoint tableGet (t : table) (key : string) : number :=
  match t with
  | [] => NaN
  | (k, v) :: rest => if String.eqb k key then Int v else tableGet rest key
  end.

Definition mnemonics (t : table) : list string := map fst t.

Definition OP_TABLE : table :=
  [ ("ld", 0); ("ldi", 1); ("st", 2); ("add", 3); ("sub", 4); ("shr", 5);
    ("shl", 6); ("ror", 7); ("rol", 8); ("and", 9); ("or", 10); ("addi", 11);
    ("andi", 12); ("ori", 13); ("mul", 14); ("div", 15); ("neg", 16);
    ("not", 17);
    ("brzr", 18); ("brnz", 18); ("brmi", 18); ("brpl", 18);
    ("jr", 19); ("jal", 20); ("in", 21); ("out", 22); ("mfhi", 23);
    ("mflo", 24); ("nop", 25); ("halt", 26) ].

Definition BR_TABLE : table :=
  [ ("brzr", 0); ("brnz", 1); ("brpl", 2); ("brmi", 3) ].

(** ** Encoder *)

(** [case 'a': case 'b': ...] *)
Definition oneOf (x : string) (labels : list string) : bool :=
  existsb (String.eqb x) labels.

Definition push (fields : list field) (f : field) : list field :=
  (fields ++ [f])%list.

Definition assembleInstruction (instruction : instruction) : M (list field) :=
  let op := instruction.(op) in
  let params := instruction.(params) in
  let fields := [ {| bits := 5; value := tableGet OP_TABLE op |} ] in
  (if oneOf op ["ld"; "ldi"] then
     ra <- lift (fieldFromRegister (param params 0)) ;;
     let fields := push fields ra in
     address <- lift (parseAddress (param params 1)) ;;
     let rb := address.(regField) in
     let fields := push fields rb in
     let immediateField := {| bits := 19; value := address.(immediateOffset) |} in
     let fields := push fields immediateField in
     ret fields
   else if oneOf op ["st"] then
     storeAddress <- lift (parseAddress (param params 0)) ;;
     let rb := storeAddress.(regField) in
     ra <- lift (fieldFromRegister (param params 1)) ;;
     let fields := push fields ra in
     let fields := push fields rb in
     let fields :=
       push fields {| bits := 19; value := storeAddress.(immediateOffset) |} in
     ret fields
   else if oneOf op ["add"; "sub"; "and"; "or"; "shr"; "shl"; "ror"; "rol"] then
     ra <- lift (fieldFromRegister (param params 0)) ;;
     rb <- lift (fieldFromRegister (param params 1)) ;;
     rc <- lift (fieldFromRegister (param params 2)) ;;
     let fields := push fields ra in
     let fields := push fields rb in
     let fields := push fields rc in
     let fields := push fields {| bits := 15; value := Int 0 |} in
     ret fields
   else if oneOf op ["addi"; "andi"; "ori"] then
     ra <- lift (fieldFromRegister (param params 0)) ;;
     rb <- lift (fieldFromRegister (param params 1)) ;;
     imm <- lift (parseImmediate (param params 2)) ;;
     let c := {| bits := 19; value := imm |} in
     let fields := push fields ra in
     let fields := push fields rb in
     let fields := push fields c in
     ret fields
   else if oneOf op ["mul"; "div"; "neg"; "not"] then
     ra <- lift (fieldFromRegister (param params 0)) ;;
     rb <- lift (fieldFromRegister (param params 1)) ;;
     let fields := push fields ra in
     let fields := push fields rb in
     let fields := push fields {| bits := 19; value := Int 0 |} in
     ret fields
   else if oneOf op ["brmi"; "brpl"; "brzr"; "brnz"] then
     ra <- lift (fieldFromRegister (param params 0)) ;;
     let fields := push fields ra in
     let br_val := tableGet BR_TABLE op in
     let fields := push fields {| bits := 2; value := br_val |} in
     let fields := push fields {| bits := 2; value := Int 0 |} in
     imm <- lift (parseImmediate (param params 1)) ;;
     let immediateField := {| bits := 19; value := imm |} in
     let fields := push fields immediateField in
     ret fields
   else if oneOf op ["jr"; "jal"; "in"; "out"; "mfhi"; "mflo"] then
     ra <- lift (fieldFromRegister (param params 0)) ;;
     let fields := push fields ra in
     let fields := push fields {| bits := 23; value := Int 0 |} in
     ret fields
   else if oneOf op ["nop"; "halt"] then
     let fields := push fields {| bits := 27; value := Int 0 |} in
     ret fields
   else
     console (Warn ("Unrecognized opcode: " ++ op)) ;;;
     ret [])%js.

(** ** Line parser *)

Definition CR : string := String "013"%char EmptyString.
Definition LF : ascii := "010"%char.

Definition parseInstruction (line : string) : instruction :=
  let startIndex := if JS.includes line ":" then JS.indexOf line ":" + 1 else 0 in
  let stopIndex := if JS.includes line ";" then JS.indexOf line ";" else JS.len line in
  let length := stopIndex - startIndex in
  let filtered := JS.trim (JS.replace (JS.substr line startIndex length) CR "") in
  let spaceIndex := JS.indexOf filtered " " in
  let spaceIndex := if spaceIndex =? -1 then JS.len filtered else spaceIndex in
  let op := JS.substr filtered 0 spaceIndex in
  let right_side := JS.trim (JS.substrFrom filtered spaceIndex) in
  let params := map JS.trim (JS.split "," right_side) in
  {| op := op; params := params |}.

(** ** Bit packer *)

(** One turn of the loop of [bitsToNumber]: the state is the running bit
    offset [i] and the accumulated [num]. *)
Definition packStep (st : N * number) (f : field) : N * number :=
  let '(i, num) := st in
  let unsigned_val :=
    if nge0 f.(value) then f.(value) else nadd (pow2 f.(bits)) f.(value) in
  let shifted_val := nmul unsigned_val (pow2 i) in
  ((i + f.(bits))%N, nadd num shifted_val).

Definition bitsToNumber (fields_des : list field) : number :=
  let fields_asc := rev fields_des in
  snd (fold_left packStep fields_asc (0%N, Int 0)).

(** ** Report *)

Definition separateBits (bitString : string) : string :=
  JS.join " "
    [ JS.substr bitString 0 5; JS.substr bitString 5 4; JS.substr bitString 9 4;
      JS.substr bitString 13 4; JS.substrFrom bitString 17 ].

Definition header : string :=
  JS.padEnd "INSTRUCTION" 40 " "
  ++ JS.padStart (JS.padEnd "  OP   RA   RB   RC   IMMEDIATE" 36 " ") 40 " ".

Definition reportLine (line : string) (word : number) : string :=
  let commentIndex := JS.indexOf line ";" in
  let lineNoComment :=
    if commentIndex =? -1 then line else JS.substr line 0 commentIndex in
  JS.padEnd lineNoComment 40 " "
  ++ JS.padStart (separateBits (JS.padStart (JS.toString2 word) 32 "0")) 40 " ".

(** The printing loop: [lines] and [compiled] have the same length. *)
Fixpoint report (lines : list string) (compiled : list number) : M unit :=
  match lines, compiled with
  | line :: lines', word :: compiled' =>
      (console (Log (reportLine line word)) ;;; report lines' compiled')%js
  | _, _ => ret tt
  end.

(** [main], from the text of the file it reads. *)
Definition main (buff : string) : M unit :=
  let lines := JS.split LF buff in
  let instructions := map parseInstruction lines in
  (assembled <- mapM assembleInstruction instructions ;;
   let compiled := map bitsToNumber assembled in
   console (Log header) ;;;
   report lines compiled)%js.


(** ** The variant [src/asm374.ts]

    The variant, called the draft here, has the same line parser, tables and register resolver.  It
    has no [parseImmediate] (numbers are read with [Number.parseInt] and no
    radix), no packer, a store that encodes a zero offset, and a branch
    case that pads the register field and reads the offset from the first
    operand.  Its [main] prints the fields of every line and checks their
    widths. *)

Module Draft.

(** [Number.parseInt(v)]: [undefined] is converted to the string
    ["undefined"] and reads as NaN, nothing is thrown. *)
Definition parseIntOf (v : jsval) : number :=
  match v with
  | Undefined => JS.parseInt "undefined" 0
  | Str s => JS.parseInt s 0
  end.

Definition parseAddress (param : jsval) : result address :=
  match param with
  | Undefined => Throw TypeError
  | Str s =>
      if JS.includes s "(" then
        (let immediateOffset := JS.parseInt s 0 in
         let startIndex := JS.indexOf s "(" + 1 in
         let stopIndex := JS.indexOf s ")" in
         let length := stopIndex - startIndex in
         regField <~ fieldFromRegister (Str (JS.substr s startIndex length)) ;;
         Ret {| regField := regField; immediateOffset := immediateOffset |})%js
      else
        let parseFrom :=
          match JS.first s with
          | Some "$"%char => JS.substrFrom s 1
          | _ => s
          end in
        let immediateOffset := JS.parseInt parseFrom 0 in
        Ret {| regField := {| bits := 4; value := Int 0 |};
               immediateOffset := immediateOffset |}
  end.

Definition assembleInstruction (instruction : instruction) : M (list field) :=
  let op := instruction.(op) in
  let params := instruction.(params) in
  let fields := [ {| bits := 5; value := tableGet OP_TABLE op |} ] in
  (if oneOf op ["ld"; "ldi"] then
     ra <- lift (fieldFromRegister (param params 0)) ;;
     let fields := push fields ra in
     address <- lift (parseAddress (param params 1)) ;;
     let rb := address.(regField) in
     let fields := push fields rb in
     let immediateField := {| bits := 19; value := address.(immediateOffset) |} in
     let fields := push fields immediateField in
     ret fields
   else if oneOf op ["st"] then
     storeAddress <- lift (parseAddress (param params 0)) ;;
     let rb := storeAddress.(regField) in
     ra <- lift (fieldFromRegister (param params 1)) ;;
     let fields := push fields ra in
     let fields := push fields rb in
     let fields := push fields {| bits := 19; value := Int 0 |} in
     ret fields
   else if oneOf op ["add"; "sub"; "and"; "or"; "shr"; "shl"; "ror"; "rol"] then
     ra <- lift (fieldFromRegister (param params 0)) ;;
     rb <- lift (fieldFromRegister (param params 1)) ;;
     rc <- lift (fieldFromRegister (param params 2)) ;;
     let fields := push fields ra in
     let fields := push fields rb in
     let fields := push fields rc in
     let fields := push fields {| bits := 15; value := Int 0 |} in
     ret fields
   else if oneOf op ["addi"; "andi"; "ori"] then
     ra <- lift (fieldFromRegister (param params 0)) ;;
     rb <- lift (fieldFromRegister (param params 1)) ;;
     let c := {| bits := 19; value := parseIntOf (param params 2) |} in
     let fields := push fields ra in
     let fields := push fields rb in
     let fields := push fields c in
     ret fields
   else if oneOf op ["mul"; "div"; "neg"; "not"] then
     ra <- lift (fieldFromRegister (param params 0)) ;;
     rb <- lift (fieldFromRegister (param params 1)) ;;
     let fields := push fields ra in
     let fields := push fields rb in
     let fields := push fields {| bits := 19; value := Int 0 |} in
     ret fields
   else if oneOf op ["brmi"; "brpl"; "brzr"; "brnz"] then
     let fields := push fields {| bits := 4; value := Int 0 |} in
     let br_val := tableGet BR_TABLE op in
     let fields := push fields {| bits := 2; value := br_val |} in
     let immediateField := {| bits := 19; value := parseIntOf (param params 0) |} in
     let fields := push fields immediateField in
     ret fields
   else if oneOf op ["jr"; "jal"; "in"; "out"; "mfhi"; "mflo"] then
     ra <- lift (fieldFromRegister (param params 0)) ;;
     let fields := push fields ra in
     let fields := push fields {| bits := 23; value := Int 0 |} in
     ret fields
   else if oneOf op ["nop"; "halt"] then
     let fields := push fields {| bits := 27; value := Int 0 |} in
     ret fields
   else
     console (Warn ("Unrecognized opcode: " ++ op)) ;;;
     ret [])%js.

(** The width check of the draft's [main], for the fields of one line. *)
Definition checkBits (fields : list field) : M unit :=
  let bitSum := fold_left (fun acc f => (acc + f.(bits))%N) fields 0%N in
  if negb (bitSum =? 32)%N then console (Error "wrong number of bits")
  else ret tt.

End Draft.

(** ** Width of a field sequence *)

(** The loop [bitSum += field.bits] of the draft's [main]. *)
Definition bitSum (fields : list field) : N :=
  fold_left (fun acc f => (acc + f.(bits))%N) fields 0%N.

(** How many entries of [params] the case of a mnemonic reads (the highest
    index it reads, plus one). *)
Definition operandsRead (op : string) : nat :=
  if oneOf op ["ld"; "ldi"] then 2
  else if oneOf op ["st"] then 2
  else if oneOf op ["add"; "sub"; "and"; "or"; "shr"; "shl"; "ror"; "rol"] then 3
  else if oneOf op ["addi"; "andi"; "ori"] then 3
  else if oneOf op ["mul"; "div"; "neg"; "not"] then 2
  else if oneOf op ["brmi"; "brpl"; "brzr"; "brnz"] then 2
  else if oneOf op ["jr"; "jal"; "in"; "out"; "mfhi"; "mflo"] then 1
  else 0.

(** ** Notions of the specification *)

(** A field given by its width and an integer value. *)
Definition fieldOf (wv : N * Z) : field :=
  {| bits := fst wv; value := Int (snd wv) |}.

Fixpoint widths (l : list (N * Z)) : Z :=
  match l with
  | [] => 0
  | wv :: rest => Z.of_N (fst wv) + widths rest
  end.

(** The packing as the specification words it: walking the fields from the
    last one, each contributes [value mod 2^width] shifted left by the
    running bit offset. *)
Fixpoint packSpecFrom (offset : Z) (asc : list (N * Z)) : Z :=
  match asc with
  | [] => 0
  | (w, v) :: rest =>
      Z.shiftl (v mod 2 ^ Z.of_N w) offset + packSpecFrom (offset + Z.of_N w) rest
  end.

Definition packSpec (des : list (N * Z)) : Z := packSpecFrom 0 (rev des).

(** A value that fits its field, signed or unsigned. *)
Definition fits (wv : N * Z) : Prop :=
  - 2 ^ Z.of_N (fst wv) <= snd wv < 2 ^ Z.of_N (fst wv).

Definition inRange (f : field) : Prop :=
  match f.(value) with
  | Int v => fits (f.(bits), v)
  | NaN => False
  end.

(** The width and the integer of a field in range. *)
Definition widthValue (f : field) : N * Z :=
  (f.(bits), match f.(value) with Int v => v | NaN => 0 end).

(** A [w]-bit pattern read as a two's-complement integer. *)
Definition toSigned (w : N) (u : Z) : Z :=
  if u <? 2 ^ (Z.of_N w - 1) then u else u - 2 ^ Z.of_N w.

(** The decimal digits. *)
Definition decimalDigits : list ascii :=
  ["0"; "1"; "2"; "3"; "4"; "5"; "6"; "7"; "8"; "9"]%char.

(** The decimal value of a string of decimal digits, [None] when a
    character is not a digit. *)
Fixpoint decimalValue (acc : Z) (ds : string) : option Z :=
  match ds with
  | EmptyString => Some acc
  | String c rest =>
      let n := Z.of_N (N_of_ascii c) in
      if (48 <=? n) && (n <=? 57) then decimalValue (10 * acc + (n - 48)) rest
      else None
  end.

(** The index of a register token [R<digits>], [None] for any other
    token. *)
Definition registerIndex (token : string) : option Z :=
  match token with
  | String "R" (String c rest) => decimalValue 0 (String c rest)
  | _ => None
  end.

(** The branch mnemonics, in the order of [BR_TABLE]. *)
Definition branches : list string := ["brzr"; "brnz"; "brpl"; "brmi"].

(** The fields and the word of one line, as [main] computes them. *)
Definition assembleLine (line : string) : M (list field) :=
  assembleInstruction (parseInstruction line).

Definition valueOr {A} (d : A) (m : M A) : A :=
  match snd m with
  | Ret a => a
  | Throw _ => d
  end.

Definition lineWord (line : string) : number :=
  bitsToNumber (valueOr [] (assembleLine line)).

(** A line supplies every operand that the case of its mnemonic reads. *)
Definition hasOperands (line : string) : Prop :=
  let i := parseInstruction line in
  (operandsRead i.(op) <= List.length i.(params))%nat.

(** The value of a hex digit, and of a string of hex digits. *)
Definition hexDigitValue (c : ascii) : option Z :=
  let n := Z.of_N (N_of_ascii c) in
  if (48 <=? n) && (n <=? 57) then Some (n - 48)
  else if (65 <=? n) && (n <=? 70) then Some (n - 55)
  else if (97 <=? n) && (n <=? 102) then Some (n - 87)
  else None.

Fixpoint hexadecimalValue (acc : Z) (hs : string) : option Z :=
  match hs with
  | EmptyString => Some acc
  | String c rest =>
      match hexDigitValue c with
      | Some d => hexadecimalValue (16 * acc + d) rest
      | None => None
      end
  end.

(** A character that ends a number: no digit of any radix, no white space,
    no sign. *)
Definition stops (c : ascii) : Prop :=
  JS.digitValue c = None /\ JS.isWhite c = false
  /\ c <> "+"%char /\ c <> "-"%char.



(** The mnemonics whose case differs between the draft and the complete
    assembler. *)
Definition draftDiffers : list string :=
  ["ld"; "ldi"; "st"; "addi"; "andi"; "ori"; "brmi"; "brpl"; "brzr"; "brnz"].

(** The three-register mnemonics. *)
Definition threeRegister : list string :=
  ["add"; "sub"; "and"; "or"; "shr"; "shl"; "ror"; "rol"].

(** * Properties *)

(** ** The bit packer *)

Section Packer.

Local Open Scope Z_scope.

Lemma pow2_pos (n : N) : 0 < 2 ^ Z.of_N n.
Proof. apply Z.pow_pos_nonneg; lia. Qed.

(** The unsigned value the loop computes for a value that fits is the value
    modulo [2^width]. *)
Lemma unsigned_val_fits (w : N) (v : Z) :
  fits (w, v) ->
  (if nge0 (Int v) then Int v else nadd (pow2 w) (Int v))
  = Int (v mod 2 ^ Z.of_N w).
Proof.
  unfold fits; cbn [fst snd nge0]; intros [Hlo Hhi].
  destruct (Z.leb_spec 0 v) as [Hv | Hv].
  - now rewrite Z.mod_small by lia.
  - cbn [nadd pow2]. f_equal.
    apply Z.mod_unique_pos with (q := -1); lia.
Qed.

Lemma packStep_fits (i : N) (acc : Z) (w : N) (v : Z) :
  fits (w, v) ->
  packStep (i, Int acc) (fieldOf (w, v))
  = ((i + w)%N, Int (acc + Z.shiftl (v mod 2 ^ Z.of_N w) (Z.of_N i))).
Proof.
  intros Hfit. unfold packStep, fieldOf; cbn [bits value fst snd].
  rewrite (unsigned_val_fits _ _ Hfit). cbn [nmul nadd pow2].
  now rewrite Z.shiftl_mul_pow2 by lia.
Qed.

Lemma fold_packStep_fits (asc : list (N * Z)) :
  Forall fits asc ->
  forall (i : N) (acc : Z),
    snd (fold_left packStep (map fieldOf asc) (i, Int acc))
    = Int (acc + packSpecFrom (Z.of_N i) asc).
Proof.
  induction 1 as [| [w v] rest Hfit _ IH]; intros i acc; cbn [map fold_left].
  - cbn. f_equal; lia.
  - rewrite (packStep_fits _ _ _ _ Hfit), IH. cbn [packSpecFrom].
    rewrite N2Z.inj_add. f_equal; lia.
Qed.

Lemma bitsToNumber_fits (des : list (N * Z)) :
  Forall fits des -> bitsToNumber (map fieldOf des) = Int (packSpec des).
Proof.
  intros Hfit. unfold bitsToNumber, packSpec.
  rewrite <- map_rev, fold_packStep_fits by now apply Forall_rev.
  reflexivity.
Qed.

Lemma widths_app (a b : list (N * Z)) : widths (a ++ b) = widths a + widths b.
Proof. induction a as [| x a IH]; cbn [app widths]; lia. Qed.

Lemma widths_rev (l : list (N * Z)) : widths (rev l) = widths l.
Proof.
  induction l as [| x l IH]; cbn [rev]; [reflexivity |].
  rewrite widths_app, IH. cbn [widths]. lia.
Qed.

Lemma widths_nonneg (l : list (N * Z)) : 0 <= widths l.
Proof. induction l as [| x l IH]; cbn [widths]; lia. Qed.

Lemma packSpecFrom_app (a b : list (N * Z)) :
  forall off,
    packSpecFrom off (a ++ b)
    = packSpecFrom off a + packSpecFrom (off + widths a) b.
Proof.
  induction a as [| [w v] a IH]; intros off; cbn [app packSpecFrom widths fst].
  - rewrite Z.add_0_r. reflexivity.
  - rewrite IH.
    replace (off + (Z.of_N w + widths a)) with (off + Z.of_N w + widths a) by lia.
    lia.
Qed.

(** The first field sits above all the others. *)
Lemma packSpec_cons (w : N) (v : Z) (rest : list (N * Z)) :
  packSpec ((w, v) :: rest)
  = Z.shiftl (v mod 2 ^ Z.of_N w) (widths rest) + packSpec rest.
Proof.
  unfold packSpec. cbn [rev]. rewrite packSpecFrom_app, widths_rev.
  rewrite Z.add_0_l. simpl packSpecFrom. lia.
Qed.

Lemma packSpec_bound (l : list (N * Z)) : 0 <= packSpec l < 2 ^ widths l.
Proof.
  induction l as [| [w v] l IH].
  - cbn. lia.
  - rewrite packSpec_cons, Z.shiftl_mul_pow2 by apply widths_nonneg.
    cbn [widths fst].
    rewrite Z.pow_add_r by (try apply widths_nonneg; lia).
    pose proof (Z.mod_pos_bound v (2 ^ Z.of_N w) (pow2_pos w)).
    assert (0 < 2 ^ widths l) by (apply Z.pow_pos_nonneg; [lia | apply widths_nonneg]).
    nia.
Qed.

Lemma packStep_int (i : N) (acc : Z) (w : N) (v : Z) :
  exists x,
    packStep (i, Int acc) (fieldOf (w, v))
    = ((i + w)%N, Int (acc + x * 2 ^ Z.of_N i)).
Proof.
  unfold packStep, fieldOf; cbn [bits value fst snd].
  destruct (nge0 (Int v)); cbn [nmul nadd pow2]; eauto.
Qed.

(** Whatever the values, the fields packed after offset [i] add a multiple
    of [2^i]. *)
Lemma fold_packStep_multiple (asc : list (N * Z)) :
  forall (i : N) (acc : Z),
  exists K,
    snd (fold_left packStep (map fieldOf asc) (i, Int acc))
    = Int (acc + 2 ^ Z.of_N i * K).
Proof.
  induction asc as [| [w v] rest IH]; intros i acc; cbn [map fold_left].
  - exists 0. cbn. f_equal; lia.
  - destruct (packStep_int i acc w v) as [x ->].
    destruct (IH (i + w)%N (acc + x * 2 ^ Z.of_N i)) as [K ->].
    exists (x + 2 ^ Z.of_N w * K). f_equal.
    rewrite N2Z.inj_add, Z.pow_add_r by lia. lia.
Qed.

Lemma inRange_fieldOf (fields : list field) :
  Forall inRange fields ->
  fields = map fieldOf (map widthValue fields)
  /\ Forall fits (map widthValue fields).
Proof.
  induction 1 as [| [w x] rest Hin _ [IHeq IHfit]]; cbn [map].
  - split; [reflexivity | constructor].
  - unfold inRange in Hin; cbn [value bits] in Hin.
    destruct x as [| v]; [contradiction |].
    split.
    + rewrite <- IHeq. reflexivity.
    + constructor; assumption.
Qed.

Lemma bitSum_from (fields : list field) :
  forall a : N,
    Z.of_N (fold_left (fun acc f => (acc + f.(bits))%N) fields a)
    = Z.of_N a + widths (map widthValue fields).
Proof.
  induction fields as [| f rest IH]; intros a; cbn [fold_left map widths].
  - lia.
  - rewrite IH. cbn [widthValue fst]. lia.
Qed.

Lemma bitSum_widths (fields : list field) :
  Z.of_N (bitSum fields) = widths (map widthValue fields).
Proof. unfold bitSum. rewrite bitSum_from. lia. Qed.

End Packer.

Ltac fits_list :=
  repeat first
    [ apply Forall_nil
    | apply Forall_cons; [unfold fits; cbn [fst snd]; vm_compute; split; [discriminate | reflexivity] |] ].




Lemma packSpecFrom_shift (l : list (N * Z)) :
  forall off, 0 <= off -> packSpecFrom off l = packSpecFrom 0 l * 2 ^ off.
Proof.
  induction l as [| [w v] l IH]; intros off Hoff; cbn [packSpecFrom].
  - lia.
  - rewrite (IH (off + Z.of_N w)) by lia. rewrite (IH (0 + Z.of_N w)) by lia.
    rewrite !Z.shiftl_mul_pow2 by lia.
    rewrite Z.add_0_l, Z.pow_add_r by lia. change (2 ^ 0) with 1. ring.
Qed.

(** The last field sits below all the others. *)
Lemma packSpec_snoc (pre : list (N * Z)) (w : N) (v : Z) :
  packSpec (pre ++ [(w, v)]) = packSpec pre * 2 ^ Z.of_N w + v mod 2 ^ Z.of_N w.
Proof.
  unfold packSpec. rewrite rev_app_distr. cbn [rev app packSpecFrom].
  rewrite (packSpecFrom_shift (rev pre) (0 + Z.of_N w)) by lia.
  rewrite Z.shiftl_0_r, Z.add_0_l. ring.
Qed.

(** C7: for every integer [v] with [-2^18 <= v < 2^18], the packer stores
    [v] in a 19-bit field as the pattern [u] with [0 <= u < 2^19], [u = v]
    for [v >= 0] and [u = 2^19 + v] for [v < 0]: alone the field packs to
    [u]; as the last field of a word of at most 53 bits whose other fields
    hold values that fit, it packs to a word that is not negative and holds
    [u] in its 19 low bits under the other fields; and [u] read as a 19-bit
    two's-complement integer gives [v] back. *)
Theorem imm19_round_trip (v : Z) (pre : list (N * Z)) :
  - 2 ^ 18 <= v < 2 ^ 18 ->
  Forall fits pre ->
  widths pre + 19 <= 53 ->
  exists word u,
    bitsToNumber (map fieldOf (pre ++ [(19%N, v)])) = Int word
    /\ bitsToNumber [ {| bits := 19; value := Int v |} ] = Int u
    /\ u = (if v <? 0 then 2 ^ 19 + v else v)
    /\ 0 <= u < 2 ^ 19
    /\ word = packSpec pre * 2 ^ 19 + u
    /\ 0 <= word < 2 ^ (widths pre + 19)
    /\ word mod 2 ^ 19 = u
    /\ toSigned 19 u = v.
Proof.
  intros Hv Hpre _.
  assert (Hfit : fits (19%N, v)) by (unfold fits; cbn [fst snd]; simpl Z.of_N; lia).
  assert (Hu : v mod 2 ^ 19 = if v <? 0 then 2 ^ 19 + v else v).
  { destruct (Z.ltb_spec v 0) as [Hneg | Hpos].
    - symmetry. apply Z.mod_unique_pos with (q := -1); lia.
    - apply Z.mod_small. lia. }
  pose proof (Z.mod_pos_bound v (2 ^ 19) ltac:(lia)) as Hub.
  pose proof (packSpec_bound pre) as Hp.
  pose proof (widths_nonneg pre) as Hw.
  exists (packSpec pre * 2 ^ 19 + v mod 2 ^ 19), (v mod 2 ^ 19).
  split; [| split; [| split; [| split; [| split; [| split; [| split]]]]]].
  - rewrite bitsToNumber_fits.
    + now rewrite packSpec_snoc.
    + apply Forall_app. split; [exact Hpre |]. constructor; [exact Hfit | constructor].
  - change (bitsToNumber (map fieldOf ([] ++ [(19%N, v)])) = Int (v mod 2 ^ 19)).
    rewrite bitsToNumber_fits by (constructor; [exact Hfit | constructor]).
    rewrite packSpec_snoc. f_equal.
  - exact Hu.
  - exact Hub.
  - reflexivity.
  - rewrite Z.pow_add_r by lia.
    assert (0 < 2 ^ widths pre) by (apply Z.pow_pos_nonneg; lia).
    nia.
  - rewrite Z.add_comm, Z.mod_add by lia. apply Z.mod_mod. lia.
  - rewrite Hu. unfold toSigned. simpl Z.of_N.
    change (2 ^ (19 - 1)) with (2 ^ 18).
    destruct (Z.ltb_spec v 0) as [Hneg | Hpos].
    + destruct (Z.ltb_spec (2 ^ 19 + v) (2 ^ 18)) as [Hlt | _]; lia.
    + destruct (Z.ltb_spec v (2 ^ 18)) as [_ | Hge]; lia.
Qed.

Lemma imm19_round_trip_witness :
  - 2 ^ 18 <= -3 < 2 ^ 18
  /\ Forall fits [(5%N, 0); (4%N, 7); (4%N, 3)]
  /\ widths [(5%N, 0); (4%N, 7); (4%N, 3)] + 19 <= 53
  /\ exists word u,
       bitsToNumber (map fieldOf ([(5%N, 0); (4%N, 7); (4%N, 3)] ++ [(19%N, -3)]))
       = Int word
       /\ bitsToNumber [ {| bits := 19; value := Int (-3) |} ] = Int u
       /\ u = 2 ^ 19 + -3
       /\ word mod 2 ^ 19 = u
       /\ toSigned 19 u = -3.
Proof.
  assert (Hv : - 2 ^ 18 <= -3 < 2 ^ 18) by lia.
  assert (Hw : widths [(5%N, 0); (4%N, 7); (4%N, 3)] + 19 <= 53)
    by (vm_compute; discriminate).
  assert (Hf : Forall fits [(5%N, 0); (4%N, 7); (4%N, 3)]) by fits_list.
  split; [exact Hv |]. split; [exact Hf |]. split; [exact Hw |].
  destruct (imm19_round_trip (-3) [(5%N, 0); (4%N, 7); (4%N, 3)] Hv Hf Hw)
    as (word & u & H1 & H2 & H3 & _ & _ & _ & H7 & H8).
  exists word, u. repeat split; assumption.
Defined.

(** C10: for every field sequence whose widths sum to 32 and in which every
    value [v] of width [w] satisfies [-2^w <= v < 2^w], the packer returns
    an integer in [[0, 2^32)].  Nothing is masked, so without the range
    condition the bound can fail: the fields of [mflo R200] sum to 32 bits
    and pack to a number above [2^32], those of [ld R0, -524289] to a
    negative one. *)
Theorem bitsToNumber_word32 :
  (forall fields,
      Forall inRange fields -> bitSum fields = 32%N ->
      exists n, bitsToNumber fields = Int n /\ 0 <= n < 2 ^ 32)
  /\ (exists fields n,
        assembleLine "mflo R200" = ([], Ret fields)
        /\ bitSum fields = 32%N
        /\ bitsToNumber fields = Int n /\ 2 ^ 32 <= n)
  /\ (exists fields n,
        assembleLine "ld R0, -524289" = ([], Ret fields)
        /\ bitSum fields = 32%N
        /\ bitsToNumber fields = Int n /\ n < 0).
Proof.
  split; [| split].
  - intros fields Hrange Hsum.
    destruct (inRange_fieldOf fields Hrange) as [Heq Hfit].
    rewrite Heq, (bitsToNumber_fits _ Hfit).
    eexists; split; [reflexivity |].
    pose proof (packSpec_bound (map widthValue fields)) as Hb.
    rewrite <- bitSum_widths, Hsum in Hb. exact Hb.
  - eexists; eexists. split; [vm_compute; reflexivity |].
    split; [reflexivity |]. split; [vm_compute; reflexivity |].
    vm_compute. discriminate.
  - eexists; eexists. split; [vm_compute; reflexivity |].
    split; [reflexivity |]. split; [vm_compute; reflexivity |].
    reflexivity.
Qed.

Lemma bitsToNumber_word32_witness :
  Forall inRange (map fieldOf [(5%N, 18); (4%N, 3); (2%N, 3); (2%N, 0); (19%N, -1)])
  /\ exists n,
       bitsToNumber (map fieldOf [(5%N, 18); (4%N, 3); (2%N, 3); (2%N, 0); (19%N, -1)])
       = Int n
       /\ 0 <= n < 2 ^ 32.
Proof.
  assert (H : Forall inRange
                (map fieldOf [(5%N, 18); (4%N, 3); (2%N, 3); (2%N, 0); (19%N, -1)])).
  { cbn [map].
    repeat first
      [ apply Forall_nil
      | apply Forall_cons;
        [unfold inRange, fits, fieldOf; cbn [value bits fst snd]; vm_compute;
         split; [discriminate | reflexivity] |] ]. }
  split.
  - exact H.
  - apply (proj1 bitsToNumber_word32 _ H). reflexivity.
Defined.

(** ** Operand resolvers *)

Section Resolvers.

Lemma substring_all (s : string) : String.substring 0 (String.length s) s = s.
Proof. induction s as [| c s IH]; cbn; [reflexivity | now rewrite IH]. Qed.

(** [s.substr(1)] drops the first character. *)
Lemma substrFrom_tail (c : ascii) (s : string) :
  JS.substrFrom (String c s) 1 = s.
Proof.
  unfold JS.substrFrom, JS.substr, JS.len. cbn [String.length].
  rewrite Nat2Z.inj_succ.
  set (n := Z.of_nat (String.length s)).
  assert (Hn : 0 <= n) by (subst n; lia).
  change (1 <? 0) with false. cbv iota.
  rewrite (Z.min_l 1) by lia.
  rewrite (Z.max_l _ 0) by lia.
  rewrite Z.min_id, (Z.min_r (1 + Z.succ n)) by lia.
  replace (Z.succ n - 1) with n by lia.
  subst n. rewrite Nat2Z.id.
  change (Z.to_nat 1) with 1%nat. cbn [String.substring].
  apply substring_all.
Qed.

Lemma decimal_digit_cases (c : ascii) :
  (48 <=? Z.of_N (N_of_ascii c)) && (Z.of_N (N_of_ascii c) <=? 57) = true ->
  In c decimalDigits.
Proof.
  destruct c as [[] [] [] [] [] [] [] []]; intros H;
    vm_compute in H; try discriminate H; cbn; tauto.
Qed.

Lemma decimalValue_head (acc : Z) (c : ascii) (rest : string) (v : Z) :
  decimalValue acc (String c rest) = Some v ->
  In c decimalDigits
  /\ decimalValue (10 * acc + (Z.of_N (N_of_ascii c) - 48)) rest = Some v.
Proof.
  cbn [decimalValue].
  destruct ((48 <=? Z.of_N (N_of_ascii c)) && (Z.of_N (N_of_ascii c) <=? 57))
    eqn:Hd; [| discriminate].
  intros H. split; [now apply decimal_digit_cases | exact H].
Qed.

Lemma radixDigit_decimal (c : ascii) :
  In c decimalDigits ->
  JS.radixDigit 10 c = Some (Z.of_N (N_of_ascii c) - 48).
Proof.
  cbn [In decimalDigits]; intros H.
  repeat (destruct H as [<- | H]; [reflexivity |]). contradiction.
Qed.

Lemma readDigits_decimal (ds : string) :
  forall acc v,
    decimalValue acc ds = Some v -> JS.readDigits 10 ds (Some acc) = Some v.
Proof.
  induction ds as [| c rest IH]; intros acc v H.
  - exact H.
  - apply decimalValue_head in H. destruct H as [Hc Hrest].
    cbn [JS.readDigits]. rewrite (radixDigit_decimal _ Hc).
    apply IH. rewrite <- Hrest. f_equal. lia.
Qed.

(** [parseInt] reads a string of decimal digits as its decimal value. *)
Lemma parseInt_decimal (c : ascii) (rest : string) (v : Z) :
  decimalValue 0 (String c rest) = Some v ->
  JS.parseInt (String c rest) 0 = Int v.
Proof.
  intros H. pose proof H as H0.
  apply decimalValue_head in H. destruct H as [Hc Hrest].
  assert (Hread : JS.readDigits 10 (String c rest) None = Some v).
  { cbn [JS.readDigits]. rewrite (radixDigit_decimal _ Hc).
    apply readDigits_decimal. rewrite <- Hrest. f_equal. }
  assert (Hx : JS.strip0x (String c rest) = None).
  { destruct rest as [| c2 rest2].
    - cbn [In decimalDigits] in Hc.
      repeat (destruct Hc as [<- | Hc]; [reflexivity |]). contradiction.
    - apply decimalValue_head in Hrest. destruct Hrest as [Hc2 _].
      cbn [In decimalDigits] in Hc, Hc2.
      repeat (destruct Hc as [<- | Hc];
              [repeat (destruct Hc2 as [<- | Hc2]; [reflexivity |]);
               contradiction |]).
      contradiction. }
  assert (Hs : JS.stripSign (JS.trimStart (String c rest)) = (1, String c rest)).
  { cbn [In decimalDigits] in Hc.
    repeat (destruct Hc as [<- | Hc]; [reflexivity |]). contradiction. }
  unfold JS.parseInt. rewrite Hs. cbn [Z.eqb negb andb orb].
  rewrite Hx, Hread. f_equal. lia.
Qed.

(** On a string the resolvers return: nothing is thrown. *)
Lemma fieldFromRegister_Str (s : string) :
  exists v, fieldFromRegister (Str s) = Ret {| bits := 4; value := v |}.
Proof. eexists; reflexivity. Qed.

Lemma parseImmediate_Str (s : string) :
  exists v, parseImmediate (Str s) = Ret v.
Proof.
  unfold parseImmediate. destruct (JS.first s) as [c |]; [| eauto].
  destruct c as [[] [] [] [] [] [] [] []]; eauto.
Qed.

Lemma parseAddress_Str (s : string) :
  exists r v,
    parseAddress (Str s)
    = Ret {| regField := {| bits := 4; value := r |}; immediateOffset := v |}.
Proof.
  unfold parseAddress.
  destruct (parseImmediate_Str s) as [v ->].
  destruct (JS.includes s "("); cbn [rbind fieldFromRegister]; eauto.
Qed.

End Resolvers.

(** With no radix, a text that starts with a character that is no decimal
    digit, no white space and no sign reads as NaN. *)
Lemma parseInt0_no_digit (d : ascii) (rest : string) :
  JS.radixDigit 10 d = None -> JS.isWhite d = false ->
  d <> "+"%char -> d <> "-"%char ->
  JS.parseInt (String d rest) 0 = NaN.
Proof.
  intros Hd Hw Hplus Hminus.
  destruct d as [[] [] [] [] [] [] [] []];
    first [ discriminate Hd | discriminate Hw
          | exfalso; apply Hplus; reflexivity
          | exfalso; apply Hminus; reflexivity
          | reflexivity ].
Qed.

(** C4, as the code has it: for every token of the form [R<digits>] with
    index [r] (below 2^53), in [[0,15]] or not, the register resolver
    returns a field of width 4 and value [r].  For every other string it
    returns a field of width 4 too and raises nothing: the first character
    is dropped unread and the value is what [parseInt] reads from the rest,
    so any first character followed by decimal digits gives their value
    ([X5] gives 5), and the empty token, a token of one character and a
    rest that starts with a character that is no decimal digit, no white
    space and no sign give NaN.  Nothing is checked against [[0,15]] and
    nothing is masked. *)
Theorem fieldFromRegister_of_token (token : string) :
  (forall r,
      registerIndex token = Some r -> 0 <= r < 2 ^ 53 ->
      fieldFromRegister (Str token) = Ret {| bits := 4; value := Int r |})
  /\ (token = "" ->
      fieldFromRegister (Str token) = Ret {| bits := 4; value := NaN |})
  /\ (forall c rest,
        token = String c rest ->
        fieldFromRegister (Str token)
        = Ret {| bits := 4; value := JS.parseInt rest 0 |}
        /\ (forall r,
              rest <> "" -> decimalValue 0 rest = Some r -> 0 <= r < 2 ^ 53 ->
              fieldFromRegister (Str token) = Ret {| bits := 4; value := Int r |})
        /\ (rest = "" ->
            fieldFromRegister (Str token) = Ret {| bits := 4; value := NaN |})
        /\ (forall d rest',
              rest = String d rest' ->
              JS.radixDigit 10 d = None -> JS.isWhite d = false ->
              d <> "+"%char -> d <> "-"%char ->
              fieldFromRegister (Str token) = Ret {| bits := 4; value := NaN |})).
Proof.
  split; [| split].
  - intros r Hidx _. unfold registerIndex in Hidx.
    destruct token as [| c0 [| c rest]]; try discriminate Hidx.
    + destruct c0 as [[] [] [] [] [] [] [] []]; discriminate Hidx.
    + unfold fieldFromRegister. rewrite substrFrom_tail.
      assert (Hv : decimalValue 0 (String c rest) = Some r).
      { destruct c0 as [[] [] [] [] [] [] [] []]; try discriminate Hidx. exact Hidx. }
      now rewrite (parseInt_decimal _ _ _ Hv).
  - intros ->. reflexivity.
  - intros c rest ->.
    assert (Hval : fieldFromRegister (Str (String c rest))
                   = Ret {| bits := 4; value := JS.parseInt rest 0 |}).
    { unfold fieldFromRegister. now rewrite substrFrom_tail. }
    split; [exact Hval |]. split; [| split].
    + intros r Hne Hv _. rewrite Hval.
      destruct rest as [| d rest']; [contradiction |].
      now rewrite (parseInt_decimal _ _ _ Hv).
    + intros ->. rewrite Hval. reflexivity.
    + intros d rest' -> Hd Hw Hp Hm. rewrite Hval.
      now rewrite parseInt0_no_digit.
Qed.

Lemma fieldFromRegister_of_token_witness :
  (registerIndex "R12" = Some 12 /\ 0 <= 12 < 2 ^ 53
   /\ fieldFromRegister (Str "R12") = Ret {| bits := 4; value := Int 12 |})
  /\ ("5" <> "" /\ decimalValue 0 "5" = Some 5 /\ 0 <= 5 < 2 ^ 53
      /\ fieldFromRegister (Str "X5") = Ret {| bits := 4; value := Int 5 |})
  /\ (JS.radixDigit 10 "a" = None /\ JS.isWhite "a" = false
      /\ fieldFromRegister (Str "Ra1") = Ret {| bits := 4; value := NaN |}).
Proof.
  assert (Hne : "5" <> "") by discriminate.
  assert (Hp : "a"%char <> "+"%char) by discriminate.
  assert (Hm : "a"%char <> "-"%char) by discriminate.
  split; [| split].
  - split; [reflexivity |]. split; [lia |].
    apply (proj1 (fieldFromRegister_of_token "R12") 12); [reflexivity | lia].
  - split; [exact Hne |]. split; [reflexivity |]. split; [lia |].
    apply (proj1 (proj2 (proj2 (proj2 (fieldFromRegister_of_token "X5"))
                           "X"%char "5" eq_refl)) 5 Hne eq_refl).
    lia.
  - split; [reflexivity |]. split; [reflexivity |].
    apply (proj2 (proj2 (proj2 (proj2 (proj2 (fieldFromRegister_of_token "Ra1"))
                                  "R"%char "a1" eq_refl)))
             "a"%char "1" eq_refl eq_refl eq_refl Hp Hm).
Defined.

(** C4 as stated fails: the index 16 is outside [[0,15]] and the tokens
    [X5] and [R] are not of the form [R<digits>], yet the resolver returns
    a field for each of them and raises nothing. *)
Lemma fieldFromRegister_never_raises :
  registerIndex "R16" = Some 16 /\ ~ (0 <= 16 <= 15)
  /\ fieldFromRegister (Str "R16") = Ret {| bits := 4; value := Int 16 |}
  /\ registerIndex "X5" = None
  /\ fieldFromRegister (Str "X5") = Ret {| bits := 4; value := Int 5 |}
  /\ registerIndex "R" = None
  /\ fieldFromRegister (Str "R") = Ret {| bits := 4; value := NaN |}
  /\ (forall e, fieldFromRegister (Str "R16") <> Throw e).
Proof.
  repeat split; try reflexivity; try lia.
  intros e H. discriminate H.
Qed.





(** In the complete assembler the address resolver maps [4(R2)] to the
    base register field of width 4 and value 2 with offset 4, and the bare
    token [$75] to the base register field of width 4 and value 0 with
    offset 117. *)
Theorem parseAddress_examples :
  parseAddress (Str "4(R2)")
  = Ret {| regField := {| bits := 4; value := Int 2 |}; immediateOffset := Int 4 |}
  /\ parseAddress (Str "$75")
     = Ret {| regField := {| bits := 4; value := Int 0 |};
              immediateOffset := Int 117 |}
  /\ 117 = 7 * 16 + 5.
Proof. repeat split. Qed.

(** ** The encoder on the lines of the program *)

(** C1: the line [ldi R3, $87] is encoded as the fields opcode 1 (5 bits),
    Ra 3 (4 bits), Rb 0 (4 bits), immediate 135 (19 bits), and packed as
    [1<<27 | 3<<23 | 0<<19 | 135]; so is the line as the program file has
    it, indented and with its comment. *)
Theorem ldi_R3_hex87_word :
  parseInstruction "ldi R3, $87" = {| op := "ldi"; params := ["R3"; "$87"] |}
  /\ assembleLine "ldi R3, $87"
     = ([], Ret (map fieldOf [(5%N, 1); (4%N, 3); (4%N, 0); (19%N, 135)]))
  /\ lineWord "ldi R3, $87"
     = Int (Z.lor (Z.lor (Z.lor (Z.shiftl 1 27) (Z.shiftl 3 23)) (Z.shiftl 0 19)) 135)
  /\ lineWord "    ldi R3, $87 ; R3 = $87" = lineWord "ldi R3, $87"
  /\ 135 = 8 * 16 + 7.
Proof. repeat split; vm_compute; reflexivity. Qed.



(** ** Field widths *)

Section Widths.

Lemma mem_In (x : string) (l : list string) :
  existsb (String.eqb x) l = true -> In x l.
Proof.
  intros H. apply existsb_exists in H. destruct H as (y & Hy & Heq).
  apply String.eqb_eq in Heq. now subst.
Qed.

Lemma oneOf_unknown (mn : string) (labels : list string) :
  (forall l, In l labels -> In l (mnemonics OP_TABLE)) ->
  ~ In mn (mnemonics OP_TABLE) ->
  oneOf mn labels = false.
Proof.
  intros Hsub Hnot. unfold oneOf.
  destruct (existsb (String.eqb mn) labels) eqn:E; [| reflexivity].
  exfalso. apply Hnot, Hsub, mem_In, E.
Qed.

Ltac labels_in_table :=
  let l := fresh "l" in
  let Hl := fresh "Hl" in
  intros l Hl; cbn [In] in Hl;
  repeat (destruct Hl as [<- | Hl]; [apply mem_In; reflexivity |]);
  contradiction.

Ltac case_false mn H :=
  match goal with
  | |- context [oneOf mn ?labels] =>
      rewrite (oneOf_unknown mn labels) by (first [labels_in_table | exact H])
  end.

(** A mnemonic that the table lacks takes the default case. *)
Lemma assembleInstruction_unknown (mn : string) (ps : list string) :
  ~ In mn (mnemonics OP_TABLE) ->
  assembleInstruction {| op := mn; params := ps |}
  = ([Warn ("Unrecognized opcode: " ++ mn)], Ret []).
Proof.
  intros H. unfold assembleInstruction. cbn [op params].
  repeat case_false mn H. reflexivity.
Qed.


Ltac resolve_operands :=
  repeat match goal with
    | |- context [parseAddress (Str ?s)] =>
        let r := fresh "r" in
        let v := fresh "v" in
        destruct (parseAddress_Str s) as (r & v & ->)
    | |- context [parseImmediate (Str ?s)] =>
        let v := fresh "v" in
        destruct (parseImmediate_Str s) as [v ->]
    | |- context [fieldFromRegister (Str ?s)] =>
        let v := fresh "v" in
        destruct (fieldFromRegister_Str s) as [v ->]
    end.

Ltac enter_case :=
  unfold assembleInstruction;
  cbn [op params oneOf existsb orb String.eqb Ascii.eqb Bool.eqb param nth_error];
  resolve_operands;
  cbn [lift bind ret push app regField immediateOffset parseAddress
       parseImmediate fieldFromRegister].

Ltac operands_of mn H :=
  let n := eval vm_compute in (operandsRead mn) in
  change (operandsRead mn) with n in H; cbn [List.length] in H.

(** With the operands its case reads, a mnemonic of the table gives fields
    of 32 bits in all, and no warning. *)
Lemma assembleInstruction_table (mn : string) (ps : list string) :
  In mn (mnemonics OP_TABLE) ->
  (operandsRead mn <= List.length ps)%nat ->
  exists fields,
    assembleInstruction {| op := mn; params := ps |} = ([], Ret fields)
    /\ bitSum fields = 32%N.
Proof.
  intros Hin Hn. cbn [mnemonics OP_TABLE map fst In] in Hin.
  repeat (destruct Hin as [<- | Hin];
          [destruct ps as [| p0 [| p1 [| p2 rest]]];
           match type of Hn with
           | (operandsRead ?m <= _)%nat => operands_of m Hn
           end;
           try (exfalso; lia);
           enter_case; eexists; split; reflexivity |]).
  contradiction.
Qed.

(** Without one of them the case reads a property of [undefined]. *)
Lemma assembleInstruction_missing (mn : string) (ps : list string) :
  In mn (mnemonics OP_TABLE) ->
  (List.length ps < operandsRead mn)%nat ->
  assembleInstruction {| op := mn; params := ps |} = ([], Throw TypeError).
Proof.
  intros Hin Hn. cbn [mnemonics OP_TABLE map fst In] in Hin.
  repeat (destruct Hin as [<- | Hin];
          [destruct ps as [| p0 [| p1 [| p2 rest]]];
           match type of Hn with
           | (_ < operandsRead ?m)%nat => operands_of m Hn
           end;
           try (exfalso; lia);
           enter_case; reflexivity |]).
  contradiction.
Qed.

End Widths.

(** X19: in the complete assembler, for every mnemonic of the
    instruction-format table and every operand list that has the operands
    the mnemonic's layout reads, the encoder returns a field sequence, and
    its widths sum to exactly 32. *)
Theorem assembleInstruction_32_bits (mn : string) (ps : list string) :
  In mn (mnemonics OP_TABLE) ->
  (operandsRead mn <= List.length ps)%nat ->
  exists fields,
    assembleInstruction {| op := mn; params := ps |} = ([], Ret fields)
    /\ bitSum fields = 32%N.
Proof. apply assembleInstruction_table. Qed.

Lemma assembleInstruction_32_bits_witness :
  In "st" (mnemonics OP_TABLE)
  /\ (operandsRead "st" <= List.length ["$67(R1)"; "R2"])%nat
  /\ exists fields,
       assembleInstruction {| op := "st"; params := ["$67(R1)"; "R2"] |}
       = ([], Ret fields)
       /\ bitSum fields = 32%N.
Proof.
  assert (Hin : In "st" (mnemonics OP_TABLE)) by (cbn; tauto).
  assert (Hn : (operandsRead "st" <= List.length ["$67(R1)"; "R2"])%nat)
    by (vm_compute; lia).
  split; [exact Hin |]. split; [exact Hn |].
  apply (assembleInstruction_32_bits "st" ["$67(R1)"; "R2"] Hin Hn).
Defined.

(** Every sequence the encoder returns for a mnemonic of the table has 32
    bits, whatever the operand tokens are. *)
Lemma assembleInstruction_ret_32 (mn : string) (ps : list string) :
  In mn (mnemonics OP_TABLE) ->
  forall out fields,
    assembleInstruction {| op := mn; params := ps |} = (out, Ret fields) ->
    out = [] /\ bitSum fields = 32%N.
Proof.
  intros Hin out fields H.
  destruct (Nat.le_gt_cases (operandsRead mn) (List.length ps)) as [Hle | Hgt].
  - destruct (assembleInstruction_table mn ps Hin Hle) as (fs & Heq & Hsum).
    rewrite Heq in H. injection H as <- <-. now split.
  - rewrite (assembleInstruction_missing mn ps Hin Hgt) in H. discriminate H.
Qed.

(** ** The run over a file *)

Section Run.

Lemma hasOperands_returns (line : string) :
  hasOperands line -> exists fs, snd (assembleLine line) = Ret fs.
Proof.
  unfold hasOperands, assembleLine.
  destruct (parseInstruction line) as [mn ps]. cbn [op params]. intros Hn.
  destruct (in_dec string_dec mn (mnemonics OP_TABLE)) as [Hin | Hout].
  - destruct (assembleInstruction_table mn ps Hin Hn) as (fs & -> & _).
    now exists fs.
  - rewrite (assembleInstruction_unknown mn ps Hout). now exists [].
Qed.

Lemma mapM_lines (lines : list string) :
  Forall hasOperands lines ->
  mapM assembleInstruction (map parseInstruction lines)
  = (flat_map (fun l => fst (assembleLine l)) lines,
     Ret (map (fun l => valueOr [] (assembleLine l)) lines)).
Proof.
  induction 1 as [| l rest Hl _ IH]; [reflexivity |].
  cbn [map mapM flat_map]. rewrite IH.
  apply hasOperands_returns in Hl. destruct Hl as [fs Hfs].
  unfold valueOr. fold (assembleLine l).
  destruct (assembleLine l) as [out r]. cbn [snd] in Hfs. subst r.
  cbn [bind ret fst snd]. now rewrite app_nil_r.
Qed.

Lemma report_rows (lines : list string) (word : string -> number) :
  report lines (map word lines)
  = (map (fun l => Log (reportLine l (word l))) lines, Ret tt).
Proof.
  induction lines as [| l rest IH]; [reflexivity |].
  cbn [map report]. rewrite IH. reflexivity.
Qed.

Lemma main_all_lines (buff : string) :
  Forall hasOperands (JS.split LF buff) ->
  main buff
  = ((flat_map (fun l => fst (assembleLine l)) (JS.split LF buff)
      ++ Log header
      :: map (fun l => Log (reportLine l (lineWord l))) (JS.split LF buff))%list,
     Ret tt).
Proof.
  intros H. unfold main. rewrite (mapM_lines _ H).
  cbn [bind]. rewrite map_map. fold lineWord.
  change (map (fun x => bitsToNumber (valueOr [] (assembleLine x))))
    with (map lineWord).
  rewrite (report_rows _ lineWord). reflexivity.
Qed.

End Run.

(** C9, as the code has it: in a file where every line supplies the
    operands that the case of its mnemonic reads, no line stops the others.
    An unknown mnemonic draws the warning [Unrecognized opcode: <op>], its
    line is encoded as the empty field sequence (word 0) and printed like
    any other; a line of a table mnemonic is encoded in 32 bits without a
    warning, malformed operand tokens included (their fields hold NaN and
    nothing reports them); and the run prints one row for every line of the
    file, computed from the text of that line alone. *)
Theorem main_batch (buff : string) :
  Forall hasOperands (JS.split LF buff) ->
  main buff
  = ((flat_map (fun l => fst (assembleLine l)) (JS.split LF buff)
      ++ Log header
      :: map (fun l => Log (reportLine l (lineWord l))) (JS.split LF buff))%list,
     Ret tt)
  /\ (forall l,
        In l (JS.split LF buff) ->
        (In (parseInstruction l).(op) (mnemonics OP_TABLE) ->
         exists fs, assembleLine l = ([], Ret fs) /\ bitSum fs = 32%N)
        /\ (~ In (parseInstruction l).(op) (mnemonics OP_TABLE) ->
            assembleLine l
            = ([Warn ("Unrecognized opcode: " ++ (parseInstruction l).(op))], Ret [])
            /\ lineWord l = Int 0)).
Proof.
  intros H. split; [now apply main_all_lines |].
  intros l Hl. rewrite Forall_forall in H. specialize (H l Hl).
  unfold hasOperands in H. unfold lineWord, assembleLine.
  destruct (parseInstruction l) as [mn ps]. cbn [op params] in *.
  split.
  - intros Hin. now apply assembleInstruction_table.
  - intros Hout. rewrite (assembleInstruction_unknown mn ps Hout).
    split; reflexivity.
Qed.

Lemma main_batch_witness :
  Forall hasOperands (JS.split LF ("bogus R1" ++ String LF "neg R7, R7"))
  /\ main ("bogus R1" ++ String LF "neg R7, R7")
     = ([ Warn "Unrecognized opcode: bogus"; Log header;
          Log (reportLine "bogus R1" (Int 0));
          Log (reportLine "neg R7, R7" (Int (16 * 2 ^ 27 + 7 * 2 ^ 23 + 7 * 2 ^ 19))) ],
        Ret tt).
Proof.
  assert (H : Forall hasOperands (JS.split LF ("bogus R1" ++ String LF "neg R7, R7"))).
  { repeat first [ apply Forall_nil
                 | apply Forall_cons; [unfold hasOperands; vm_compute; lia |] ]. }
  split; [exact H |].
  rewrite (proj1 (main_batch ("bogus R1" ++ String LF "neg R7, R7") H)).
  vm_compute. reflexivity.
Defined.

(** C9 as stated fails: in the file of the two lines [ldi R3] and [nop] the
    first line lacks an operand; the second one is encodable on its own,
    but the run ends with a TypeError and prints no row and no report of
    the failing line.  And the malformed immediate of [ldi R3, $G] is not
    reported: the line is printed with the word NaN. *)
Lemma missing_operand_aborts_run :
  assembleLine "nop" = ([], Ret (map fieldOf [(5%N, 25); (27%N, 0)]))
  /\ assembleLine "ldi R3" = ([], Throw TypeError)
  /\ main ("ldi R3" ++ String LF "nop") = ([], Throw TypeError)
  /\ main "ldi R3, $G"
     = ([Log header; Log (reportLine "ldi R3, $G" NaN)], Ret tt).
Proof. repeat split; vm_compute; reflexivity. Qed.

(** ** The draft

    In [src/asm374.ts] the branch case emits 30 bits, which the width check
    of its own [main] reports, and hexadecimal offsets are read as decimal
    numbers. *)

(** C2 fails in the variant [src/asm374.ts]: for the line [brmi R3, 3] of
    the program file its branch case returns fields of 5, 4, 2 and 19 bits,
    30 in all and not 32, and the width check of its own [main] reports
    them as the wrong number of bits; the complete assembler returns 32
    bits for the same line. *)
Theorem draft_branch_width_bug :
  exists fields,
    Draft.assembleInstruction
      (parseInstruction
         "    brmi R3, 3 ; continue with the next instruction (will not branch)")
    = ([], Ret fields)
    /\ map bits fields = [5; 4; 2; 19]%N
    /\ bitSum fields = 30%N
    /\ bitSum fields <> 32%N
    /\ Draft.checkBits fields = ([Error "wrong number of bits"], Ret tt)
    /\ In "brmi" (mnemonics OP_TABLE)
    /\ exists fields',
         assembleLine
           "    brmi R3, 3 ; continue with the next instruction (will not branch)"
         = ([], Ret fields')
         /\ bitSum fields' = 32%N.
Proof.
  eexists. split; [vm_compute; reflexivity |].
  split; [reflexivity |]. split; [reflexivity |].
  split; [discriminate |]. split; [reflexivity |].
  split; [cbn; tauto |].
  eexists. split; [vm_compute; reflexivity | reflexivity].
Qed.

(** C3 fails in the variant [src/asm374.ts]: for the line [brmi R3, 3] its
    branch case pads the register field with 0 instead of 3, emits no
    reserved bits after the sub-code 3, and reads the immediate from the
    first operand [R3], which gives NaN instead of 3; the complete
    assembler returns the fields that the claim names. *)
Theorem draft_brmi_fields_bug :
  Draft.assembleInstruction (parseInstruction "brmi R3, 3")
  = ([], Ret [ {| bits := 5; value := Int 18 |}; {| bits := 4; value := Int 0 |};
               {| bits := 2; value := Int 3 |}; {| bits := 19; value := NaN |} ])
  /\ Draft.assembleInstruction (parseInstruction "brmi R3, 3")
     <> ([], Ret (map fieldOf [(5%N, 18); (4%N, 3); (2%N, 3); (2%N, 0); (19%N, 3)]))
  /\ assembleLine "brmi R3, 3"
     = ([], Ret (map fieldOf [(5%N, 18); (4%N, 3); (2%N, 3); (2%N, 0); (19%N, 3)])).
Proof.
  split; [vm_compute; reflexivity |].
  split; [vm_compute; discriminate | vm_compute; reflexivity].
Qed.

(** C5 fails in the variant [src/asm374.ts]: its address resolver strips
    the [$] of the bare token [$75] and reads the rest in base 10, so the
    offset is 75 and not 117, also in the fields of the line [ld R2, $75]
    of the program file; [4(R2)] resolves to base 2 and offset 4 there
    too, and the complete assembler gives 117. *)
Theorem draft_hex_offset_bug :
  Draft.parseAddress (Str "$75")
  = Ret {| regField := {| bits := 4; value := Int 0 |}; immediateOffset := Int 75 |}
  /\ Int 75 <> Int 117
  /\ Draft.parseAddress (Str "4(R2)")
     = Ret {| regField := {| bits := 4; value := Int 2 |}; immediateOffset := Int 4 |}
  /\ Draft.assembleInstruction (parseInstruction "    ld R2, $75 ; R2 = ($75) = $56")
     = ([], Ret (map fieldOf [(5%N, 0); (4%N, 2); (4%N, 0); (19%N, 75)]))
  /\ parseAddress (Str "$75")
     = Ret {| regField := {| bits := 4; value := Int 0 |};
              immediateOffset := Int 117 |}
  /\ assembleLine "    ld R2, $75 ; R2 = ($75) = $56"
     = ([], Ret (map fieldOf [(5%N, 0); (4%N, 2); (4%N, 0); (19%N, 117)])).
Proof.
  split; [reflexivity |]. split; [discriminate |]. split; [reflexivity |].
  split; [vm_compute; reflexivity |]. split; [reflexivity |].
  vm_compute. reflexivity.
Qed.

Lemma draft_branch_30_bits :
  Draft.assembleInstruction (parseInstruction "brmi R3, 3")
  = ([], Ret [ {| bits := 5; value := Int 18 |}; {| bits := 4; value := Int 0 |};
               {| bits := 2; value := Int 3 |}; {| bits := 19; value := NaN |} ])
  /\ bitSum [ {| bits := 5; value := Int 18 |}; {| bits := 4; value := Int 0 |};
              {| bits := 2; value := Int 3 |}; {| bits := 19; value := NaN |} ]
     = 30%N
  /\ Draft.checkBits
       [ {| bits := 5; value := Int 18 |}; {| bits := 4; value := Int 0 |};
         {| bits := 2; value := Int 3 |}; {| bits := 19; value := NaN |} ]
     = ([Error "wrong number of bits"], Ret tt).
Proof. repeat split; vm_compute; reflexivity. Qed.

Lemma draft_parseAddress_decimal :
  Draft.parseAddress (Str "4(R2)")
  = Ret {| regField := {| bits := 4; value := Int 2 |}; immediateOffset := Int 4 |}
  /\ Draft.parseAddress (Str "$75")
     = Ret {| regField := {| bits := 4; value := Int 0 |};
              immediateOffset := Int 75 |}.
Proof. repeat split. Qed.

(** ** The program file *)

Example parse_line_8 :
  parseInstruction "    brmi R3, 3 ; continue with the next instruction (will not branch)"
  = {| op := "brmi"; params := ["R3"; "3"] |}.
Proof. reflexivity. Qed.

Example parse_blank : parseInstruction "" = {| op := ""; params := [""] |}.
Proof. reflexivity. Qed.

Example neg_R7_R7 :
  assembleLine "    neg R7, R7 ; R7 = $FFFFFFA7"
  = ([], Ret (map fieldOf [(5%N, 16); (4%N, 7); (4%N, 7); (19%N, 0)])).
Proof. vm_compute. reflexivity. Qed.

Example st_offset_base :
  assembleLine "    st $67(R1), R2 ; ($75) = $CD"
  = ([], Ret (map fieldOf [(5%N, 2); (4%N, 2); (4%N, 1); (19%N, 103)])).
Proof. vm_compute. reflexivity. Qed.

(** * Further properties of the code *)

(** ** Strings *)

(** ** Strings *)

Section Strings.

Lemma prefix_nil (s : string) : String.prefix "" s = true.
Proof. destruct s; reflexivity. Qed.

Lemma index_char_cons (c a : ascii) (s : string) :
  String.index 0 (String c "") (String a s)
  = if Ascii.eqb c a then Some 0%nat
    else option_map S (String.index 0 (String c "") s).
Proof.
  cbn [String.index String.prefix].
  destruct (ascii_dec c a) as [-> | Hne].
  - now rewrite prefix_nil, Ascii.eqb_refl.
  - apply Ascii.eqb_neq in Hne. rewrite Hne.
    destruct (String.index 0 (String c "") s); reflexivity.
Qed.

Lemma len_nonneg (s : string) : 0 <= JS.len s.
Proof. unfold JS.len. lia. Qed.

Lemma len_cons (a : ascii) (s : string) : JS.len (String a s) = JS.len s + 1.
Proof. unfold JS.len. cbn [String.length]. lia. Qed.

Lemma len_app (s t : string) : JS.len (s ++ t) = JS.len s + JS.len t.
Proof.
  induction s as [| a s IH]; cbn [append].
  - unfold JS.len at 2. cbn. lia.
  - rewrite !len_cons, IH. lia.
Qed.

(** A character that a string lacks is first found where the string ends. *)
Lemma index_app_absent (c : ascii) (t u : string) :
  String.index 0 (String c "") t = None ->
  String.index 0 (String c "") (t ++ u)
  = match u with
    | EmptyString => None
    | _ => option_map (Nat.add (String.length t)) (String.index 0 (String c "") u)
    end.
Proof.
  induction t as [| a t IH]; intros H.
  - cbn [append String.length]. destruct u as [| b u]; [reflexivity |].
    destruct (String.index 0 (String c "") (String b u)); reflexivity.
  - rewrite index_char_cons in H. cbn [append].
    rewrite index_char_cons.
    destruct (Ascii.eqb c a); [discriminate H |].
    destruct (String.index 0 (String c "") t) eqn:Ht; [discriminate H |].
    rewrite (IH eq_refl). destruct u as [| b u]; [reflexivity |].
    destruct (String.index 0 (String c "") (String b u)); reflexivity.
Qed.

Lemma includes_absent (s : string) (c : ascii) :
  JS.includes s (String c "") = false ->
  String.index 0 (String c "") s = None.
Proof.
  unfold JS.includes. destruct (String.index 0 (String c "") s); congruence.
Qed.

Lemma indexOf_absent (s : string) (c : ascii) :
  JS.includes s (String c "") = false -> JS.indexOf s (String c "") = -1.
Proof.
  intros H. unfold JS.indexOf. now rewrite (includes_absent _ _ H).
Qed.

(** The first occurrence of [c] in [t ++ c ++ u], when [t] lacks it. *)
Lemma indexOf_first (c : ascii) (t u : string) :
  JS.includes t (String c "") = false ->
  JS.includes (t ++ String c u) (String c "") = true
  /\ JS.indexOf (t ++ String c u) (String c "") = JS.len t.
Proof.
  intros H. apply includes_absent in H.
  unfold JS.includes, JS.indexOf.
  rewrite (index_app_absent _ _ _ H), index_char_cons, Ascii.eqb_refl.
  cbn [option_map]. unfold JS.len. split; [reflexivity | f_equal; lia].
Qed.

Lemma includes_app_absent (c : ascii) (t u : string) :
  JS.includes t (String c "") = false ->
  JS.includes (t ++ u) (String c "") = JS.includes u (String c "").
Proof.
  intros H. apply includes_absent in H. unfold JS.includes.
  rewrite (index_app_absent _ _ _ H).
  destruct u as [| b u]; [reflexivity |].
  destruct (String.index 0 (String c "") (String b u)); reflexivity.
Qed.

Lemma includes_cons (c a : ascii) (s : string) :
  JS.includes (String a s) (String c "")
  = Ascii.eqb c a || JS.includes s (String c "").
Proof.
  unfold JS.includes. rewrite index_char_cons.
  destruct (Ascii.eqb c a); [reflexivity |].
  destruct (String.index 0 (String c "") s); reflexivity.
Qed.

Lemma substring_none (n : nat) (s : string) : String.substring n 0 s = "".
Proof.
  revert n. induction s as [| a s IH]; intros [| n]; cbn; auto.
Qed.

Lemma substring_app_mid (t m u : string) :
  String.substring (String.length t) (String.length m) (t ++ m ++ u) = m.
Proof.
  induction t as [| a t IH]; cbn [String.length append String.substring].
  - induction m as [| b m IHm]; cbn [String.length append].
    + apply substring_none.
    + cbn [String.substring]. now rewrite IHm.
  - exact IH.
Qed.


(** [s.substr(start, length)] with a length that is not positive. *)
Lemma substr_nonpos (s : string) (start length : Z) :
  length <= 0 -> JS.substr s start length = "".
Proof.
  intros H. unfold JS.substr.
  set (i := if start <? 0 then Z.max (JS.len s + start) 0 else Z.min start (JS.len s)).
  pose proof (len_nonneg s).
  rewrite (Z.max_r length 0) by lia.
  rewrite (Z.min_l 0) by lia.
  replace (Z.to_nat (Z.min (i + 0) (JS.len s) - i)) with 0%nat by lia.
  apply substring_none.
Qed.

(** The middle of [t ++ m ++ u]. *)
Lemma substr_mid (t m u : string) :
  JS.substr (t ++ m ++ u) (JS.len t) (JS.len m) = m.
Proof.
  unfold JS.substr. rewrite !len_app.
  pose proof (len_nonneg t). pose proof (len_nonneg m). pose proof (len_nonneg u).
  destruct (Z.ltb_spec (JS.len t) 0) as [Hneg | _]; [lia |].
  rewrite (Z.min_l (JS.len t)) by lia.
  rewrite (Z.max_l (JS.len m) 0) by lia.
  rewrite (Z.min_l (JS.len m)) by lia.
  rewrite (Z.min_l (JS.len t + JS.len m)) by lia.
  replace (JS.len t + JS.len m - JS.len t) with (JS.len m) by lia.
  unfold JS.len. rewrite !Nat2Z.id. apply substring_app_mid.
Qed.

Lemma append_nil_r (s : string) : s ++ "" = s.
Proof. induction s as [| a s IH]; cbn; [reflexivity | now rewrite IH]. Qed.

Lemma substr_prefix (t u : string) : JS.substr (t ++ u) 0 (JS.len t) = t.
Proof. exact (substr_mid "" t u). Qed.

Lemma substr_all (s : string) : JS.substr s 0 (JS.len s) = s.
Proof.
  pose proof (substr_prefix s "") as H. now rewrite append_nil_r in H.
Qed.

Lemma append_assoc (s t u : string) : (s ++ t) ++ u = s ++ t ++ u.
Proof. induction s as [| a s IH]; cbn; [reflexivity | now rewrite IH]. Qed.

End Strings.

Ltac each_char c := destruct c as [[] [] [] [] [] [] [] []].

(** ** Where [parseInt] stops *)

Section ParseInt.

Lemma trimStart_stop (t : string) (c : ascii) (rest : string) :
  JS.isWhite c = false ->
  JS.trimStart (t ++ String c rest) = JS.trimStart t ++ String c rest.
Proof.
  intros Hw. induction t as [| a t IH]; cbn [append JS.trimStart].
  - now rewrite Hw.
  - destruct (JS.isWhite a); [exact IH | reflexivity].
Qed.

Lemma stripSign_stop (u : string) (c : ascii) (rest : string) :
  c <> "+"%char -> c <> "-"%char ->
  JS.stripSign (u ++ String c rest)
  = (fst (JS.stripSign u), snd (JS.stripSign u) ++ String c rest).
Proof.
  intros Hp Hm. destruct u as [| a u]; cbn [append].
  - each_char c;
      first [ exfalso; apply Hp; reflexivity
            | exfalso; apply Hm; reflexivity
            | reflexivity ].
  - each_char a; reflexivity.
Qed.

Lemma strip0x_stop (r : string) (c : ascii) (rest : string) :
  JS.digitValue c = None ->
  JS.strip0x (r ++ String c rest)
  = option_map (fun x => x ++ String c rest) (JS.strip0x r).
Proof.
  intros Hd. destruct r as [| a [| b r]]; cbn [append].
  - each_char c; first [discriminate Hd | reflexivity].
  - each_char a; try reflexivity.
    each_char c; first [discriminate Hd | reflexivity].
  - each_char a; try reflexivity.
    each_char b; reflexivity.
Qed.

Lemma readDigits_stop (R : Z) (s : string) (c : ascii) (rest : string) :
  JS.digitValue c = None ->
  forall acc, JS.readDigits R (s ++ String c rest) acc = JS.readDigits R s acc.
Proof.
  intros Hd. induction s as [| a s IH]; intros acc; cbn [append JS.readDigits].
  - unfold JS.radixDigit. now rewrite Hd.
  - destruct (JS.radixDigit R a); [apply IH | reflexivity].
Qed.

(** [parseInt] reads nothing past such a character. *)
Lemma parseInt_stop (t : string) (c : ascii) (rest : string) (R : Z) :
  stops c -> JS.parseInt (t ++ String c rest) R = JS.parseInt t R.
Proof.
  intros (Hd & Hw & Hp & Hm). unfold JS.parseInt.
  rewrite (trimStart_stop _ _ _ Hw), (stripSign_stop _ _ _ Hp Hm).
  destruct (JS.stripSign (JS.trimStart t)) as [sign body]. cbn [fst snd].
  destruct (negb (R =? 0) && ((R <? 2) || (36 <? R))); [reflexivity |].
  destruct ((R =? 0) || (R =? 16)).
  - rewrite (strip0x_stop _ _ _ Hd).
    destruct (JS.strip0x body) as [r |]; cbn [option_map];
      now rewrite (readDigits_stop _ _ _ _ Hd).
  - now rewrite (readDigits_stop _ _ _ _ Hd).
Qed.

Lemma stops_open : stops "("%char.
Proof. repeat split; discriminate. Qed.

Lemma parseImmediate_stop (t : string) (c : ascii) (rest : string) :
  stops c -> c <> "$"%char ->
  parseImmediate (Str (t ++ String c rest)) = parseImmediate (Str t).
Proof.
  intros Hc Hdollar. unfold parseImmediate.
  destruct t as [| a t]; cbn [append JS.first].
  - rewrite <- (parseInt_stop "" c rest 10 Hc). cbn [append].
    each_char c; first [exfalso; apply Hdollar; reflexivity | reflexivity].
  - each_char a;
      first [ rewrite !substrFrom_tail, (parseInt_stop _ _ _ _ Hc); reflexivity
            | change (String ?x (t ++ String c rest)) with (String x t ++ String c rest);
              rewrite (parseInt_stop _ _ _ _ Hc); reflexivity ].
Qed.

End ParseInt.

(** ** Words that are NaN *)

Section NaNWord.

Lemma packStep_NaN (i : N) (num : number) (f : field) :
  snd (packStep (i, num) f) = NaN <-> num = NaN \/ f.(value) = NaN.
Proof.
  unfold packStep. cbn [snd]. destruct f as [w v]. cbn [bits value].
  destruct num as [| n], v as [| z]; cbn [nge0 nadd nmul pow2];
    try (destruct (0 <=? z)); cbn [nadd nmul pow2];
    split; intros H; try discriminate H; auto;
    destruct H as [H | H]; discriminate H.
Qed.

Lemma fold_packStep_NaN (l : list field) :
  forall i num,
    snd (fold_left packStep l (i, num)) = NaN
    <-> num = NaN \/ Exists (fun f => f.(value) = NaN) l.
Proof.
  induction l as [| f l IH]; intros i num; cbn [fold_left].
  - cbn [snd]. split; [auto |]. intros [H | H]; [exact H | inversion H].
  - destruct (packStep (i, num) f) as [i' num'] eqn:E.
    rewrite IH.
    assert (Hs : num' = NaN <-> num = NaN \/ f.(value) = NaN).
    { rewrite <- (packStep_NaN i num f), E. reflexivity. }
    rewrite Hs, Exists_cons. tauto.
Qed.

End NaNWord.

(** X3: for fields of at most 53 bits in all whose values are NaN or fit
    their field, the packed word is NaN exactly when some field holds NaN:
    one operand that does not parse spoils the whole word, and nothing else
    does. *)
Theorem bitsToNumber_NaN (fields : list field) :
  Forall (fun f => f.(value) = NaN \/ inRange f) fields ->
  Z.of_N (bitSum fields) <= 53 ->
  (bitsToNumber fields = NaN <-> Exists (fun f => f.(value) = NaN) fields).
Proof.
  intros _ _. unfold bitsToNumber. rewrite fold_packStep_NaN. split.
  - intros [H | H]; [discriminate H |].
    rewrite <- (rev_involutive fields). now apply Exists_rev.
  - intros H. right. now apply Exists_rev.
Qed.

Lemma bitsToNumber_NaN_witness :
  Forall (fun f => f.(value) = NaN \/ inRange f)
    [ {| bits := 5; value := Int 1 |}; {| bits := 4; value := NaN |};
      {| bits := 4; value := Int 0 |}; {| bits := 19; value := Int 135 |} ]
  /\ Z.of_N (bitSum
               [ {| bits := 5; value := Int 1 |}; {| bits := 4; value := NaN |};
                 {| bits := 4; value := Int 0 |}; {| bits := 19; value := Int 135 |} ])
     <= 53
  /\ Exists (fun f => f.(value) = NaN)
       [ {| bits := 5; value := Int 1 |}; {| bits := 4; value := NaN |};
         {| bits := 4; value := Int 0 |}; {| bits := 19; value := Int 135 |} ]
  /\ bitsToNumber
       [ {| bits := 5; value := Int 1 |}; {| bits := 4; value := NaN |};
         {| bits := 4; value := Int 0 |}; {| bits := 19; value := Int 135 |} ]
     = NaN.
Proof.
  assert (Hr : Forall (fun f => f.(value) = NaN \/ inRange f)
                 [ {| bits := 5; value := Int 1 |}; {| bits := 4; value := NaN |};
                   {| bits := 4; value := Int 0 |};
                   {| bits := 19; value := Int 135 |} ]).
  { repeat first
      [ apply Forall_nil
      | apply Forall_cons;
        [first [ left; reflexivity
               | right; unfold inRange, fits; cbn [value bits fst snd]; vm_compute;
                 split; [discriminate | reflexivity] ] |] ]. }
  assert (Hw : Z.of_N (bitSum
                 [ {| bits := 5; value := Int 1 |}; {| bits := 4; value := NaN |};
                   {| bits := 4; value := Int 0 |};
                   {| bits := 19; value := Int 135 |} ]) <= 53)
    by (vm_compute; discriminate).
  assert (H : Exists (fun f => f.(value) = NaN)
                [ {| bits := 5; value := Int 1 |}; {| bits := 4; value := NaN |};
                  {| bits := 4; value := Int 0 |}; {| bits := 19; value := Int 135 |} ])
    by (apply Exists_cons_tl, Exists_cons_hd; reflexivity).
  split; [exact Hr |]. split; [exact Hw |]. split; [exact H |].
  apply (proj2 (bitsToNumber_NaN _ Hr Hw) H).
Defined.

(** ** The shape of the fields *)

Section Shape.

Ltac resolve_operands :=
  repeat match goal with
    | |- context [parseAddress (Str ?s)] =>
        let r := fresh "r" in
        let v := fresh "v" in
        destruct (parseAddress_Str s) as (r & v & ->)
    | |- context [parseImmediate (Str ?s)] =>
        let v := fresh "v" in
        destruct (parseImmediate_Str s) as [v ->]
    | |- context [fieldFromRegister (Str ?s)] =>
        let v := fresh "v" in
        destruct (fieldFromRegister_Str s) as [v ->]
    end.

Ltac enter_case :=
  unfold assembleInstruction;
  cbn [op params oneOf existsb orb String.eqb Ascii.eqb Bool.eqb param nth_error];
  resolve_operands;
  cbn [lift bind ret push app regField immediateOffset parseAddress
       parseImmediate fieldFromRegister].

(** The result of the encoder for a mnemonic of the table: an exception
    without output, or fields that start with the opcode. *)
Lemma assembleInstruction_shape (mn : string) (ps : list string) :
  In mn (mnemonics OP_TABLE) ->
  match assembleInstruction {| op := mn; params := ps |} with
  | (out, Ret fields) =>
      out = []
      /\ exists rest,
           fields = {| bits := 5; value := tableGet OP_TABLE mn |} :: rest
           /\ bitSum fields = 32%N
  | (out, Throw _) => out = []
  end.
Proof.
  intros Hin. cbn [mnemonics OP_TABLE map fst In] in Hin.
  repeat (destruct Hin as [<- | Hin];
          [destruct ps as [| p0 [| p1 [| p2 rest]]];
           enter_case;
           first [reflexivity | split; [reflexivity | eexists; split; reflexivity]] |]).
  contradiction.
Qed.

Lemma opcode_range (mn : string) :
  In mn (mnemonics OP_TABLE) ->
  exists opc, tableGet OP_TABLE mn = Int opc /\ 0 <= opc <= 26.
Proof.
  intros Hin. cbn [mnemonics OP_TABLE map fst In] in Hin.
  repeat (destruct Hin as [<- | Hin];
          [eexists; split; [reflexivity | lia] |]).
  contradiction.
Qed.

(** Two mnemonics with one opcode are the same or are two branches. *)
Lemma opcode_shared (m1 m2 : string) :
  In m1 (mnemonics OP_TABLE) -> In m2 (mnemonics OP_TABLE) ->
  tableGet OP_TABLE m1 = tableGet OP_TABLE m2 ->
  m1 = m2 \/ (In m1 branches /\ In m2 branches).
Proof.
  intros H1 H2. cbn [mnemonics OP_TABLE map fst In] in H1, H2.
  repeat (destruct H1 as [<- | H1];
          [repeat (destruct H2 as [<- | H2];
                   [intros E; vm_compute in E;
                    first [discriminate E | left; reflexivity
                          | right; split; cbn; tauto] |]);
           contradiction |]).
  contradiction.
Qed.

Lemma branch_shape (mn : string) (ps : list string) (out : list event)
      (fields : list field) :
  In mn branches ->
  assembleInstruction {| op := mn; params := ps |} = (out, Ret fields) ->
  exists ra imm,
    fields = [ {| bits := 5; value := Int 18 |}; {| bits := 4; value := ra |};
               {| bits := 2; value := tableGet BR_TABLE mn |};
               {| bits := 2; value := Int 0 |};
               {| bits := 19; value := imm |} ].
Proof.
  intros Hin. cbn [branches In] in Hin.
  repeat (destruct Hin as [<- | Hin];
          [destruct ps as [| p0 [| p1 rest]];
           enter_case; intros H;
           first [discriminate H | injection H as _ <-; eauto] |]).
  contradiction.
Qed.

End Shape.

Section Words.

Lemma Int_inj (a b : Z) : Int a = Int b -> a = b.
Proof. intros H. now injection H. Qed.

(** The word of fields in range that start with a 5-bit opcode and have 32
    bits in all. *)
Lemma word_of_opcode (opc : Z) (rest : list field) :
  0 <= opc < 32 ->
  Forall inRange rest ->
  bitSum ({| bits := 5; value := Int opc |} :: rest) = 32%N ->
  exists low,
    bitsToNumber ({| bits := 5; value := Int opc |} :: rest)
    = Int (opc * 2 ^ 27 + low)
    /\ 0 <= low < 2 ^ 27.
Proof.
  intros Hopc Hrest Hsum.
  destruct (inRange_fieldOf rest Hrest) as [Heq Hfit].
  set (l := map widthValue rest) in *.
  assert (Hw : widths l = 27).
  { pose proof (bitSum_widths ({| bits := 5; value := Int opc |} :: rest)) as H.
    rewrite Hsum in H. cbn [map widths widthValue bits fst] in H.
    fold l in H. lia. }
  exists (packSpec l). split.
  - rewrite Heq.
    change ({| bits := 5; value := Int opc |} :: map fieldOf l)
      with (map fieldOf ((5%N, opc) :: l)).
    rewrite bitsToNumber_fits.
    + rewrite packSpec_cons, Hw, Z.shiftl_mul_pow2 by lia.
      rewrite Z.mod_small by (simpl Z.of_N; lia). reflexivity.
    + constructor; [| exact Hfit].
      unfold fits. cbn [fst snd]. simpl Z.of_N. lia.
  - rewrite <- Hw. apply packSpec_bound.
Qed.

Lemma branch_word (r s i : Z) :
  - 2 ^ 4 <= r < 2 ^ 4 -> 0 <= s < 4 -> - 2 ^ 19 <= i < 2 ^ 19 ->
  bitsToNumber
    [ {| bits := 5; value := Int 18 |}; {| bits := 4; value := Int r |};
      {| bits := 2; value := Int s |}; {| bits := 2; value := Int 0 |};
      {| bits := 19; value := Int i |} ]
  = Int (18 * 2 ^ 27 + (r mod 2 ^ 4) * 2 ^ 23 + s * 2 ^ 21 + i mod 2 ^ 19).
Proof.
  intros Hr Hs Hi.
  change (bitsToNumber (map fieldOf [(5%N, 18); (4%N, r); (2%N, s); (2%N, 0); (19%N, i)])
          = Int (18 * 2 ^ 27 + (r mod 2 ^ 4) * 2 ^ 23 + s * 2 ^ 21 + i mod 2 ^ 19)).
  rewrite bitsToNumber_fits.
  - unfold packSpec. cbn [rev app packSpecFrom]. simpl Z.of_N.
    rewrite !Z.shiftl_mul_pow2 by lia.
    rewrite (Z.mod_small s) by lia. f_equal.
    change (0 mod 2 ^ 2) with 0. change (18 mod 2 ^ 5) with 18.
    cbn [Z.add]. lia.
  - repeat (constructor; [unfold fits; cbn [fst snd]; simpl Z.of_N; lia |]).
    constructor.
Qed.

End Words.

(** The word of a table mnemonic with fields in range. *)
Lemma word_top_bits (mn : string) (ps : list string)
        (out : list event) (fields : list field) :
  In mn (mnemonics OP_TABLE) ->
  assembleInstruction {| op := mn; params := ps |} = (out, Ret fields) ->
  Forall inRange fields ->
  exists w opc,
    tableGet OP_TABLE mn = Int opc
    /\ bitsToNumber fields = Int w
    /\ 0 <= w < 2 ^ 32
    /\ Z.shiftr w 27 = opc.
Proof.
  intros Hin Hasm Hrange.
  pose proof (assembleInstruction_shape mn ps Hin) as Hshape.
  rewrite Hasm in Hshape. destruct Hshape as (_ & rest & -> & Hsum).
  destruct (opcode_range mn Hin) as (opc & Hopc & Hb).
  rewrite Hopc in *. inversion Hrange as [| f fs _ Hrest]; subst.
  destruct (word_of_opcode opc rest ltac:(lia) Hrest Hsum) as (low & Hw & Hlow).
  exists (opc * 2 ^ 27 + low), opc. repeat split; try assumption; try lia.
  rewrite Z.shiftr_div_pow2 by lia.
  symmetry. apply (Z.div_unique_pos _ _ opc low); lia.
Qed.

(** X4: for a mnemonic of the table whose fields all hold values in range,
    the packed word is a 32-bit number whose five top bits are the opcode
    of the mnemonic. *)
Theorem word_top_bits_opcode (mn : string) (ps : list string)
        (out : list event) (fields : list field) :
  In mn (mnemonics OP_TABLE) ->
  assembleInstruction {| op := mn; params := ps |} = (out, Ret fields) ->
  Forall inRange fields ->
  exists w opc,
    tableGet OP_TABLE mn = Int opc
    /\ bitsToNumber fields = Int w
    /\ 0 <= w < 2 ^ 32
    /\ Z.shiftr w 27 = opc.
Proof. apply word_top_bits. Qed.

Lemma word_top_bits_opcode_witness :
  In "addi" (mnemonics OP_TABLE)
  /\ assembleInstruction {| op := "addi"; params := ["R7"; "R7"; "-3"] |}
     = ([], Ret (map fieldOf [(5%N, 11); (4%N, 7); (4%N, 7); (19%N, -3)]))
  /\ Forall inRange (map fieldOf [(5%N, 11); (4%N, 7); (4%N, 7); (19%N, -3)])
  /\ exists w opc,
       tableGet OP_TABLE "addi" = Int opc
       /\ bitsToNumber (map fieldOf [(5%N, 11); (4%N, 7); (4%N, 7); (19%N, -3)]) = Int w
       /\ 0 <= w < 2 ^ 32
       /\ Z.shiftr w 27 = opc.
Proof.
  assert (Hin : In "addi" (mnemonics OP_TABLE)) by (cbn; tauto).
  assert (Hasm : assembleInstruction {| op := "addi"; params := ["R7"; "R7"; "-3"] |}
                 = ([], Ret (map fieldOf [(5%N, 11); (4%N, 7); (4%N, 7); (19%N, -3)])))
    by (vm_compute; reflexivity).
  assert (Hr : Forall inRange (map fieldOf [(5%N, 11); (4%N, 7); (4%N, 7); (19%N, -3)])).
  { cbn [map].
    repeat first
      [ apply Forall_nil
      | apply Forall_cons;
        [unfold inRange, fits, fieldOf; cbn [value bits fst snd]; vm_compute;
         split; [discriminate | reflexivity] |] ]. }
  split; [exact Hin |]. split; [exact Hasm |]. split; [exact Hr |].
  apply (word_top_bits_opcode "addi" ["R7"; "R7"; "-3"] [] _ Hin Hasm Hr).
Defined.

(** X5: the packed word tells the mnemonic: two instructions of the table
    whose fields hold values in range and whose words are equal have the
    same mnemonic (the opcode decides, and among the branches the
    sub-code). *)
Theorem word_determines_mnemonic (m1 m2 : string) (ps1 ps2 : list string)
        (out1 out2 : list event) (fs1 fs2 : list field) :
  In m1 (mnemonics OP_TABLE) -> In m2 (mnemonics OP_TABLE) ->
  assembleInstruction {| op := m1; params := ps1 |} = (out1, Ret fs1) ->
  assembleInstruction {| op := m2; params := ps2 |} = (out2, Ret fs2) ->
  Forall inRange fs1 -> Forall inRange fs2 ->
  bitsToNumber fs1 = bitsToNumber fs2 ->
  m1 = m2.
Proof.
  intros H1 H2 A1 A2 R1 R2 Heq.
  destruct (word_top_bits m1 ps1 out1 fs1 H1 A1 R1) as (w1 & o1 & T1 & W1 & _ & S1).
  destruct (word_top_bits m2 ps2 out2 fs2 H2 A2 R2) as (w2 & o2 & T2 & W2 & _ & S2).
  assert (Hw : w1 = w2) by congruence.
  assert (Ho : tableGet OP_TABLE m1 = tableGet OP_TABLE m2) by congruence.
  destruct (opcode_shared m1 m2 H1 H2 Ho) as [Hsame | [B1 B2]]; [exact Hsame |].
  destruct (branch_shape m1 ps1 out1 fs1 B1 A1) as (ra1 & imm1 & ->).
  destruct (branch_shape m2 ps2 out2 fs2 B2 A2) as (ra2 & imm2 & ->).
  clear A1 A2 H1 H2 T1 T2 W1 W2 S1 S2 Hw Ho.
  assert (Hin : forall ra sub imm,
             Forall inRange
               [ {| bits := 5; value := Int 18 |}; {| bits := 4; value := ra |};
                 sub; {| bits := 2; value := Int 0 |};
                 {| bits := 19; value := imm |} ] ->
             exists r i,
               ra = Int r /\ imm = Int i
               /\ - 2 ^ 4 <= r < 2 ^ 4 /\ - 2 ^ 19 <= i < 2 ^ 19).
  { intros ra sub imm H.
    inversion H as [| ? ? _ H']; subst. inversion H' as [| ? ? Hra H'']; subst.
    inversion H'' as [| ? ? _ H3]; subst. inversion H3 as [| ? ? _ H4]; subst.
    inversion H4 as [| ? ? Himm _]; subst.
    unfold inRange, fits in Hra, Himm. cbn [value bits fst snd] in Hra, Himm.
    destruct ra as [| r]; [contradiction |]. destruct imm as [| i]; [contradiction |].
    exists r, i. repeat split; try apply Hra; apply Himm. }
  destruct (Hin _ _ _ R1) as (r1 & i1 & -> & -> & Hr1 & Hi1).
  destruct (Hin _ _ _ R2) as (r2 & i2 & -> & -> & Hr2 & Hi2).
  clear Hin R1 R2.
  pose proof (Z.mod_pos_bound r1 (2 ^ 4) ltac:(lia)) as Mr1.
  pose proof (Z.mod_pos_bound r2 (2 ^ 4) ltac:(lia)) as Mr2.
  pose proof (Z.mod_pos_bound i1 (2 ^ 19) ltac:(lia)) as Mi1.
  pose proof (Z.mod_pos_bound i2 (2 ^ 19) ltac:(lia)) as Mi2.
  assert (Hsub : forall m, In m branches ->
             exists s, tableGet BR_TABLE m = Int s /\ 0 <= s < 4).
  { intros m Hm. cbn [branches In] in Hm.
    repeat (destruct Hm as [<- | Hm]; [eexists; split; [reflexivity | lia] |]).
    contradiction. }
  destruct (Hsub m1 B1) as (s1 & E1 & Hs1).
  destruct (Hsub m2 B2) as (s2 & E2 & Hs2).
  rewrite E1, E2 in Heq.
  rewrite !branch_word in Heq by assumption.
  apply Int_inj in Heq.
  assert (Hs : s1 = s2).
  { generalize dependent (r1 mod 2 ^ 4). generalize dependent (r2 mod 2 ^ 4).
    generalize dependent (i1 mod 2 ^ 19). generalize dependent (i2 mod 2 ^ 19).
    intros. lia. }
  subst s2. clear - B1 B2 E1 E2.
  cbn [branches In] in B1, B2.
  repeat (destruct B1 as [<- | B1];
          [repeat (destruct B2 as [<- | B2];
                   [first [reflexivity
                          | exfalso; vm_compute in E1; vm_compute in E2; congruence] |]);
           contradiction |]).
  contradiction.
Qed.

Lemma word_determines_mnemonic_witness :
  In "brpl" (mnemonics OP_TABLE)
  /\ assembleInstruction {| op := "brpl"; params := ["R7"; "2"] |}
     = ([], Ret (map fieldOf [(5%N, 18); (4%N, 7); (2%N, 2); (2%N, 0); (19%N, 2)]))
  /\ assembleInstruction {| op := "brpl"; params := ["R07"; "$2"] |}
     = ([], Ret (map fieldOf [(5%N, 18); (4%N, 7); (2%N, 2); (2%N, 0); (19%N, 2)]))
  /\ Forall inRange (map fieldOf [(5%N, 18); (4%N, 7); (2%N, 2); (2%N, 0); (19%N, 2)])
  /\ "brpl" = "brpl".
Proof.
  assert (Hin : In "brpl" (mnemonics OP_TABLE)) by (cbn; tauto).
  assert (A1 : assembleInstruction {| op := "brpl"; params := ["R7"; "2"] |}
               = ([], Ret (map fieldOf [(5%N, 18); (4%N, 7); (2%N, 2); (2%N, 0); (19%N, 2)])))
    by (vm_compute; reflexivity).
  assert (A2 : assembleInstruction {| op := "brpl"; params := ["R07"; "$2"] |}
               = ([], Ret (map fieldOf [(5%N, 18); (4%N, 7); (2%N, 2); (2%N, 0); (19%N, 2)])))
    by (vm_compute; reflexivity).
  assert (Hr : Forall inRange
                 (map fieldOf [(5%N, 18); (4%N, 7); (2%N, 2); (2%N, 0); (19%N, 2)])).
  { cbn [map].
    repeat first
      [ apply Forall_nil
      | apply Forall_cons;
        [unfold inRange, fits, fieldOf; cbn [value bits fst snd]; vm_compute;
         split; [discriminate | reflexivity] |] ]. }
  split; [exact Hin |]. split; [exact A1 |]. split; [exact A2 |]. split; [exact Hr |].
  apply (word_determines_mnemonic "brpl" "brpl" ["R7"; "2"] ["R07"; "$2"] [] [] _ _
           Hin Hin A1 A2 Hr Hr eq_refl).
Defined.

(** ** Tokens of a line *)

Section Tokens.

Lemma index_before (c : ascii) (s : string) :
  forall i,
    String.index 0 (String c "") s = Some i ->
    (i <= String.length s)%nat
    /\ String.index 0 (String c "") (String.substring 0 i s) = None.
Proof.
  induction s as [| a s IH]; intros i H.
  - discriminate H.
  - rewrite index_char_cons in H. destruct (Ascii.eqb c a) eqn:E.
    + injection H as <-. split; [cbn; lia | reflexivity].
    + destruct (String.index 0 (String c "") s) as [j |]; [| discriminate H].
      injection H as <-. destruct (IH j eq_refl) as [Hj Hnone].
      split; [cbn; lia |].
      cbn [String.substring]. rewrite index_char_cons, E, Hnone. reflexivity.
Qed.

Lemma substr_head (s : string) (i : nat) :
  (i <= String.length s)%nat ->
  JS.substr s 0 (Z.of_nat i) = String.substring 0 i s.
Proof.
  intros H. unfold JS.substr, JS.len.
  change (0 <? 0) with false. cbv iota.
  rewrite (Z.min_l 0) by lia. rewrite (Z.max_l (Z.of_nat i)) by lia.
  rewrite (Z.min_l (Z.of_nat i)) by lia. rewrite Z.add_0_l, (Z.min_l (Z.of_nat i)) by lia.
  rewrite Z.sub_0_r, Nat2Z.id. reflexivity.
Qed.

(** The text before the first space holds no space. *)
Lemma before_space (s : string) :
  JS.includes
    (JS.substr s 0 (if JS.indexOf s " " =? -1 then JS.len s else JS.indexOf s " "))
    " " = false.
Proof.
  unfold JS.indexOf, JS.includes at 1.
  destruct (String.index 0 " " s) as [i |] eqn:E.
  - destruct (index_before " " s i E) as [Hi Hnone].
    destruct (Z.eqb_spec (Z.of_nat i) (-1)) as [Hneg | _]; [lia |].
    now rewrite (substr_head s i Hi), Hnone.
  - cbn [Z.eqb]. now rewrite substr_all, E.
Qed.

Lemma split_lacks (c : ascii) (s : string) :
  forall p, In p (JS.split c s) -> JS.includes p (String c "") = false.
Proof.
  induction s as [| a s IH]; intros p Hp; cbn [JS.split] in Hp.
  - destruct Hp as [<- | []]. reflexivity.
  - destruct (Ascii.eqb a c) eqn:E.
    + destruct Hp as [<- | Hp]; [reflexivity | now apply IH].
    + destruct (JS.split c s) as [| h t] eqn:Es.
      * destruct Hp as [<- | []]. rewrite includes_cons.
        rewrite Ascii.eqb_sym, E. reflexivity.
      * destruct Hp as [<- | Hp].
        -- rewrite includes_cons, Ascii.eqb_sym, E. cbn [orb].
           apply IH. now left.
        -- apply IH. now right.
Qed.

Lemma includes_cons_false (c a : ascii) (s : string) :
  JS.includes (String a s) (String c "") = false ->
  Ascii.eqb c a = false /\ JS.includes s (String c "") = false.
Proof. rewrite includes_cons. apply orb_false_elim. Qed.

Lemma trimStart_lacks (c : ascii) (s : string) :
  JS.includes s (String c "") = false ->
  JS.includes (JS.trimStart s) (String c "") = false.
Proof.
  induction s as [| a s IH]; intros H; cbn [JS.trimStart]; [exact H |].
  destruct (JS.isWhite a); [| exact H].
  apply IH. now apply includes_cons_false in H.
Qed.

Lemma trimEnd_lacks (c : ascii) (s : string) :
  JS.includes s (String c "") = false ->
  JS.includes (JS.trimEnd s) (String c "") = false.
Proof.
  induction s as [| a s IH]; intros H; cbn [JS.trimEnd]; [exact H |].
  apply includes_cons_false in H. destruct H as [Ha Hs].
  specialize (IH Hs).
  destruct (JS.trimEnd s) as [| b r].
  - destruct (JS.isWhite a); [reflexivity |].
    rewrite includes_cons, Ha. reflexivity.
  - rewrite includes_cons, Ha. exact IH.
Qed.

Lemma trimEnd_idempotent (s : string) : JS.trimEnd (JS.trimEnd s) = JS.trimEnd s.
Proof.
  induction s as [| a s IH]; [reflexivity |]. cbn [JS.trimEnd].
  destruct (JS.trimEnd s) as [| b r] eqn:E.
  - destruct (JS.isWhite a) eqn:Ew; [reflexivity |].
    cbn [JS.trimEnd]. now rewrite Ew.
  - cbn [JS.trimEnd]. cbn [JS.trimEnd] in IH. rewrite IH. reflexivity.
Qed.

Lemma trimStart_head (s : string) :
  JS.trimStart s = ""
  \/ exists a r, JS.trimStart s = String a r /\ JS.isWhite a = false.
Proof.
  induction s as [| a s IH]; [now left |]. cbn [JS.trimStart].
  destruct (JS.isWhite a) eqn:E; [exact IH |]. right. eauto.
Qed.

Lemma trimEnd_head (a : ascii) (r : string) :
  JS.isWhite a = false -> exists r', JS.trimEnd (String a r) = String a r'.
Proof.
  intros H. cbn [JS.trimEnd]. destruct (JS.trimEnd r); [rewrite H |]; eauto.
Qed.

Lemma trim_idempotent (s : string) : JS.trim (JS.trim s) = JS.trim s.
Proof.
  unfold JS.trim.
  destruct (trimStart_head s) as [-> | (a & r & -> & Ha)]; [reflexivity |].
  destruct (trimEnd_head a r Ha) as [r' Hr'].
  assert (Hst : JS.trimStart (JS.trimEnd (String a r)) = JS.trimEnd (String a r)).
  { rewrite Hr'. cbn [JS.trimStart]. now rewrite Ha. }
  rewrite Hst. apply trimEnd_idempotent.
Qed.

End Tokens.

(** X14: the parsed mnemonic holds no space; every parsed operand holds no
    comma and no white space at its ends. *)
Theorem parseInstruction_tokens (line : string) :
  JS.includes (parseInstruction line).(op) " " = false
  /\ (forall p, In p (parseInstruction line).(params) ->
        JS.includes p "," = false /\ JS.trim p = p).
Proof.
  unfold parseInstruction. cbv zeta. cbn [op params]. split.
  - apply before_space.
  - intros p Hp. apply in_map_iff in Hp. destruct Hp as (q & <- & Hq).
    split; [| apply trim_idempotent].
    unfold JS.trim. apply trimEnd_lacks, trimStart_lacks.
    exact (split_lacks "," _ q Hq).
Qed.

Lemma parseInstruction_tokens_witness :
  In "R2" (parseInstruction "  shr   R2 ,  R3,R0 ").(params)
  /\ JS.includes "R2" "," = false /\ JS.trim "R2" = "R2".
Proof.
  assert (H : In "R2" (parseInstruction "  shr   R2 ,  R3,R0 ").(params))
    by (vm_compute; tauto).
  split; [exact H |].
  apply (proj2 (parseInstruction_tokens "  shr   R2 ,  R3,R0 ") "R2" H).
Defined.

(** ** Three-register instructions *)

Section Registers.

Lemma fieldFromRegister_index (token : string) (r : Z) :
  registerIndex token = Some r ->
  fieldFromRegister (Str token) = Ret {| bits := 4; value := Int r |}.
Proof.
  intros Hidx. unfold registerIndex in Hidx.
  destruct token as [| c0 [| c rest]]; try discriminate Hidx.
  - each_char c0; discriminate Hidx.
  - unfold fieldFromRegister. rewrite substrFrom_tail.
    assert (Hv : decimalValue 0 (String c rest) = Some r).
    { each_char c0; try discriminate Hidx. exact Hidx. }
    now rewrite (parseInt_decimal _ _ _ Hv).
Qed.

Lemma three_register_pack (opc a b c : Z) :
  0 <= opc < 32 -> 0 <= a <= 15 -> 0 <= b <= 15 -> 0 <= c <= 15 ->
  bitsToNumber
    [ {| bits := 5; value := Int opc |}; {| bits := 4; value := Int a |};
      {| bits := 4; value := Int b |}; {| bits := 4; value := Int c |};
      {| bits := 15; value := Int 0 |} ]
  = Int (opc * 2 ^ 27 + a * 2 ^ 23 + b * 2 ^ 19 + c * 2 ^ 15).
Proof.
  intros Ho Ha Hb Hc.
  change (bitsToNumber (map fieldOf [(5%N, opc); (4%N, a); (4%N, b); (4%N, c); (15%N, 0)])
          = Int (opc * 2 ^ 27 + a * 2 ^ 23 + b * 2 ^ 19 + c * 2 ^ 15)).
  rewrite bitsToNumber_fits.
  - unfold packSpec. cbn [rev app packSpecFrom]. simpl Z.of_N.
    rewrite !Z.shiftl_mul_pow2 by lia.
    rewrite (Z.mod_small opc), (Z.mod_small a), (Z.mod_small b), (Z.mod_small c) by lia.
    change (0 mod 2 ^ 15) with 0. f_equal. cbn [Z.add]. lia.
  - repeat (constructor; [unfold fits; cbn [fst snd]; simpl Z.of_N; lia |]).
    constructor.
Qed.

End Registers.

(** X6: a three-register instruction with registers [R<a>], [R<b>], [R<c>]
    in [[0,15]] is packed as [opcode<<27 | a<<23 | b<<19 | c<<15], and the
    three indices are read back from bits 26..23, 22..19 and 18..15 of the
    word. *)
Theorem three_register_word (mn ta tb tc : string) (a b c : Z) (tail : list string) :
  In mn threeRegister ->
  registerIndex ta = Some a -> registerIndex tb = Some b ->
  registerIndex tc = Some c ->
  0 <= a <= 15 -> 0 <= b <= 15 -> 0 <= c <= 15 ->
  exists opc fields w,
    tableGet OP_TABLE mn = Int opc
    /\ assembleInstruction {| op := mn; params := ta :: tb :: tc :: tail |}
       = ([], Ret fields)
    /\ bitsToNumber fields = Int w
    /\ w = opc * 2 ^ 27 + a * 2 ^ 23 + b * 2 ^ 19 + c * 2 ^ 15
    /\ Z.land (Z.shiftr w 23) 15 = a
    /\ Z.land (Z.shiftr w 19) 15 = b
    /\ Z.land (Z.shiftr w 15) 15 = c.
Proof.
  intros Hmn Ha Hb Hc Ra Rb Rc.
  assert (Hopc : exists opc,
             tableGet OP_TABLE mn = Int opc /\ 0 <= opc < 32
             /\ assembleInstruction {| op := mn; params := ta :: tb :: tc :: tail |}
                = ([], Ret [ {| bits := 5; value := Int opc |};
                             {| bits := 4; value := Int a |};
                             {| bits := 4; value := Int b |};
                             {| bits := 4; value := Int c |};
                             {| bits := 15; value := Int 0 |} ])).
  { cbn [threeRegister In] in Hmn.
    repeat (destruct Hmn as [<- | Hmn];
            [eexists; split; [reflexivity |]; split; [lia |];
             unfold assembleInstruction;
             cbn [op params oneOf existsb orb String.eqb Ascii.eqb Bool.eqb
                  param nth_error];
             rewrite (fieldFromRegister_index _ _ Ha),
               (fieldFromRegister_index _ _ Hb), (fieldFromRegister_index _ _ Hc);
             reflexivity |]).
    contradiction. }
  destruct Hopc as (opc & Ht & Ho & Hasm).
  exists opc. eexists. exists (opc * 2 ^ 27 + a * 2 ^ 23 + b * 2 ^ 19 + c * 2 ^ 15).
  split; [exact Ht |]. split; [exact Hasm |].
  split; [now apply three_register_pack |]. split; [reflexivity |].
  set (w := opc * 2 ^ 27 + a * 2 ^ 23 + b * 2 ^ 19 + c * 2 ^ 15).
  assert (L : forall x, Z.land x 15 = x mod 2 ^ 4).
  { intros x. change 15 with (Z.ones 4). apply Z.land_ones. lia. }
  rewrite !L, !Z.shiftr_div_pow2 by lia.
  assert (D23 : w / 2 ^ 23 = opc * 16 + a).
  { symmetry. apply Z.div_unique_pos with (r := b * 2 ^ 19 + c * 2 ^ 15);
      subst w; lia. }
  assert (D19 : w / 2 ^ 19 = (opc * 16 + a) * 16 + b).
  { symmetry. apply Z.div_unique_pos with (r := c * 2 ^ 15); subst w; lia. }
  assert (D15 : w / 2 ^ 15 = ((opc * 16 + a) * 16 + b) * 16 + c).
  { symmetry. apply Z.div_unique_pos with (r := 0); subst w; lia. }
  rewrite D23, D19, D15. repeat split.
  - symmetry. apply Z.mod_unique_pos with (q := opc); lia.
  - symmetry. apply Z.mod_unique_pos with (q := opc * 16 + a); lia.
  - symmetry. apply Z.mod_unique_pos with (q := (opc * 16 + a) * 16 + b); lia.
Qed.

Lemma three_register_word_witness :
  In "shr" threeRegister
  /\ registerIndex "R2" = Some 2 /\ registerIndex "R3" = Some 3
  /\ registerIndex "R0" = Some 0
  /\ exists opc fields w,
       tableGet OP_TABLE "shr" = Int opc
       /\ assembleInstruction {| op := "shr"; params := ["R2"; "R3"; "R0"] |}
          = ([], Ret fields)
       /\ bitsToNumber fields = Int w
       /\ w = opc * 2 ^ 27 + 2 * 2 ^ 23 + 3 * 2 ^ 19 + 0 * 2 ^ 15.
Proof.
  assert (Hin : In "shr" threeRegister) by (cbn; tauto).
  split; [exact Hin |]. repeat (split; [reflexivity |]).
  destruct (three_register_word "shr" "R2" "R3" "R0" 2 3 0 [] Hin eq_refl eq_refl eq_refl
              ltac:(lia) ltac:(lia) ltac:(lia))
    as (opc & fields & w & H1 & H2 & H3 & H4 & _).
  exists opc, fields, w. auto.
Defined.

(** ** The binary column of the report *)

Section Binary.







End Binary.



(** X7: a store names its address first and its register second, and
    encodes them in the fields of a load of that register from that
    address; [ld], [ldi] and [st] differ in the opcode only. *)
Theorem load_store_fields (reg addr : string) (rest1 rest2 : list string) :
  exists tl,
    assembleInstruction {| op := "ld"; params := reg :: addr :: rest1 |}
    = ([], Ret ({| bits := 5; value := Int 0 |} :: tl))
    /\ assembleInstruction {| op := "ldi"; params := reg :: addr :: rest1 |}
       = ([], Ret ({| bits := 5; value := Int 1 |} :: tl))
    /\ assembleInstruction {| op := "st"; params := addr :: reg :: rest2 |}
       = ([], Ret ({| bits := 5; value := Int 2 |} :: tl)).
Proof.
  destruct (parseAddress_Str addr) as (r & v & Ha).
  destruct (fieldFromRegister_Str reg) as (x & Hr).
  eexists. unfold assembleInstruction.
  cbn [op params oneOf existsb orb String.eqb Ascii.eqb Bool.eqb param nth_error].
  rewrite Ha, Hr.
  cbn [lift bind ret push app regField immediateOffset].
  repeat split.
Qed.

(** ** The variant [src/asm374.ts], case by case *)

Section DraftCases.

Lemma draft_parseAddress_Str (s : string) :
  exists r v,
    Draft.parseAddress (Str s)
    = Ret {| regField := {| bits := 4; value := r |}; immediateOffset := v |}.
Proof.
  unfold Draft.parseAddress.
  destruct (JS.includes s "("); cbn [rbind fieldFromRegister]; eauto.
Qed.

Ltac draft_case :=
  unfold Draft.assembleInstruction;
  cbn [op params oneOf existsb orb String.eqb Ascii.eqb Bool.eqb param nth_error];
  repeat match goal with
    | |- context [Draft.parseAddress (Str ?s)] =>
        let r := fresh "r" in
        let v := fresh "v" in
        destruct (draft_parseAddress_Str s) as (r & v & ->)
    | |- context [fieldFromRegister (Str ?s)] =>
        let v := fresh "v" in
        destruct (fieldFromRegister_Str s) as [v ->]
    end;
  cbn [lift bind ret push app regField immediateOffset Draft.parseAddress
       fieldFromRegister].

Lemma draft_shape (mn : string) (ps : list string) :
  In mn (mnemonics OP_TABLE) ->
  match Draft.assembleInstruction {| op := mn; params := ps |} with
  | (out, Ret fields) =>
      out = []
      /\ bitSum fields = (if oneOf mn branches then 30 else 32)%N
  | (out, Throw _) => out = [] /\ oneOf mn branches = false
  end.
Proof.
  intros Hin. cbn [mnemonics OP_TABLE map fst In] in Hin.
  repeat (destruct Hin as [<- | Hin];
          [destruct ps as [| p0 [| p1 [| p2 rest]]];
           draft_case; split; reflexivity |]).
  contradiction.
Qed.

Lemma oneOf_outside (mn : string) (labels excluded : list string) :
  (forall l, In l labels -> In l excluded) ->
  ~ In mn excluded ->
  oneOf mn labels = false.
Proof.
  intros Hsub Hnot. unfold oneOf.
  destruct (existsb (String.eqb mn) labels) eqn:E; [| reflexivity].
  exfalso. apply Hnot, Hsub, mem_In, E.
Qed.

End DraftCases.

(** ** Addresses and literals *)

(** X8: the address resolver splits [offset(reg)tail] at the first
    parentheses: the offset is what the immediate resolver makes of
    [offset], the base what the register resolver makes of [reg], whatever
    follows the closing parenthesis; this needs no parenthesis in [offset]
    and no closing one in [reg]. *)
Theorem parseAddress_splits (offset reg tail : string) :
  JS.includes offset "(" = false -> JS.includes offset ")" = false ->
  JS.includes reg ")" = false ->
  exists v r,
    parseImmediate (Str offset) = Ret v
    /\ fieldFromRegister (Str reg) = Ret r
    /\ parseAddress (Str (offset ++ "(" ++ reg ++ ")" ++ tail))
       = Ret {| regField := r; immediateOffset := v |}.
Proof.
  intros Ho Hc Hr. cbn [append].
  destruct (parseImmediate_Str offset) as [v Hv].
  exists v. eexists. split; [exact Hv |]. split; [reflexivity |].
  unfold parseAddress.
  destruct (indexOf_first "(" offset (reg ++ String ")" tail) Ho) as [-> ->].
  rewrite (parseImmediate_stop offset "(" _ stops_open) by discriminate.
  rewrite Hv. cbn [rbind].
  assert (Hclose : JS.includes (offset ++ String "(" reg) ")" = false).
  { rewrite includes_app_absent by assumption.
    rewrite includes_cons. exact Hr. }
  replace (offset ++ String "(" (reg ++ String ")" tail))
    with ((offset ++ String "(" reg) ++ String ")" tail)
    by (rewrite append_assoc; reflexivity).
  destruct (indexOf_first ")" _ tail Hclose) as [_ ->].
  replace (JS.len (offset ++ String "(" reg) - (JS.len offset + 1)) with (JS.len reg)
    by (rewrite len_app, len_cons; lia).
  replace (JS.len offset + 1) with (JS.len (offset ++ "("))
    by (rewrite len_app; reflexivity).
  replace ((offset ++ String "(" reg) ++ String ")" tail)
    with ((offset ++ "(") ++ reg ++ String ")" tail)
    by (rewrite !append_assoc; reflexivity).
  rewrite substr_mid. reflexivity.
Qed.

Lemma parseAddress_splits_witness :
  JS.includes "$67" "(" = false /\ JS.includes "$67" ")" = false
  /\ JS.includes "R1" ")" = false
  /\ exists v r,
       parseImmediate (Str "$67") = Ret v
       /\ fieldFromRegister (Str "R1") = Ret r
       /\ parseAddress (Str ("$67" ++ "(" ++ "R1" ++ ")" ++ ""))
          = Ret {| regField := r; immediateOffset := v |}.
Proof.
  repeat (split; [reflexivity |]).
  apply (parseAddress_splits "$67" "R1" ""); reflexivity.
Defined.

(** X9: an address with an opening parenthesis whose closing one is missing,
    or comes first, or follows at once, has no register text: the base
    field holds NaN, the offset is still read, nothing is raised. *)
Theorem parseAddress_unclosed (s : string) :
  JS.includes s "(" = true ->
  JS.indexOf s ")" <= JS.indexOf s "(" + 1 ->
  exists v,
    parseImmediate (Str s) = Ret v
    /\ parseAddress (Str s)
       = Ret {| regField := {| bits := 4; value := NaN |}; immediateOffset := v |}.
Proof.
  intros Hopen Hclose.
  destruct (parseImmediate_Str s) as [v Hv]. exists v. split; [exact Hv |].
  unfold parseAddress. rewrite Hopen, Hv. cbn [rbind].
  rewrite substr_nonpos by lia. reflexivity.
Qed.

Lemma parseAddress_unclosed_witness :
  JS.includes "4(R2" "(" = true
  /\ JS.indexOf "4(R2" ")" <= JS.indexOf "4(R2" "(" + 1
  /\ exists v,
       parseImmediate (Str "4(R2") = Ret v
       /\ parseAddress (Str "4(R2")
          = Ret {| regField := {| bits := 4; value := NaN |}; immediateOffset := v |}.
Proof.
  assert (H : JS.indexOf "4(R2" ")" <= JS.indexOf "4(R2" "(" + 1)
    by (vm_compute; discriminate).
  split; [reflexivity |]. split; [exact H |].
  apply (parseAddress_unclosed "4(R2"); [reflexivity | exact H].
Defined.

Section Literals.

Lemma hex_digit_facts (c : ascii) (d : Z) :
  hexDigitValue c = Some d ->
  JS.radixDigit 16 c = Some d
  /\ JS.isWhite c = false
  /\ (forall r, JS.stripSign (String c r) = (1, String c r))
  /\ (forall a r, JS.strip0x (String a (String c r)) = None)
  /\ JS.strip0x (String c "") = None.
Proof.
  intros H.
  each_char c; vm_compute in H; try discriminate H;
    injection H as <-;
    (split; [reflexivity |]); (split; [reflexivity |]);
    (split; [reflexivity |]); (split; [| reflexivity]);
    intros a r; each_char a; reflexivity.
Qed.

Lemma readDigits_hex (hs : string) :
  forall acc v,
    hexadecimalValue acc hs = Some v -> JS.readDigits 16 hs (Some acc) = Some v.
Proof.
  induction hs as [| c rest IH]; intros acc v H; [exact H |].
  cbn [hexadecimalValue] in H. cbn [JS.readDigits].
  destruct (hexDigitValue c) as [d |] eqn:Hd; [| discriminate H].
  destruct (hex_digit_facts c d Hd) as (-> & _).
  apply IH. rewrite <- H. f_equal. lia.
Qed.

(** [parseInt] in base 16 reads a string of hex digits as its value. *)
Lemma parseInt_hex (c : ascii) (rest : string) (v : Z) :
  hexadecimalValue 0 (String c rest) = Some v ->
  JS.parseInt (String c rest) 16 = Int v.
Proof.
  intros H. cbn [hexadecimalValue] in H.
  destruct (hexDigitValue c) as [d |] eqn:Hd; [| discriminate H].
  destruct (hex_digit_facts c d Hd) as (Hr & Hw & Hs & _ & Hx1).
  assert (Hx : JS.strip0x (String c rest) = None).
  { destruct rest as [| c2 rest2]; [exact Hx1 |].
    cbn [hexadecimalValue] in H.
    destruct (hexDigitValue c2) as [d2 |] eqn:Hd2; [| discriminate H].
    now destruct (hex_digit_facts c2 d2 Hd2) as (_ & _ & _ & -> & _). }
  unfold JS.parseInt. cbn [JS.trimStart]. rewrite Hw, Hs.
  cbv beta iota zeta delta [Z.eqb Z.ltb Z.compare Pos.eqb Pos.compare Pos.compare_cont negb andb orb].
  rewrite Hx. cbn [JS.readDigits]. rewrite Hr.
  rewrite (readDigits_hex rest d v) by (rewrite <- H; f_equal; lia).
  f_equal; lia.
Qed.

Lemma decimal_digit_facts (c : ascii) :
  In c decimalDigits ->
  JS.isWhite c = false
  /\ (forall r, JS.stripSign (String c r) = (1, String c r))
  /\ c <> "$"%char.
Proof.
  cbn [In decimalDigits]. intros H.
  repeat (destruct H as [<- | H];
          [split; [reflexivity |]; split; [reflexivity | discriminate] |]).
  contradiction.
Qed.

(** [parseInt] in base 10 reads a string of decimal digits as its value. *)
Lemma parseInt10_decimal (c : ascii) (rest : string) (v : Z) :
  decimalValue 0 (String c rest) = Some v ->
  JS.readDigits 10 (String c rest) None = Some v
  /\ JS.parseInt (String c rest) 10 = Int v
  /\ JS.parseInt (String "-" (String c rest)) 10 = Int (- v).
Proof.
  intros H. apply decimalValue_head in H. destruct H as [Hc Hrest].
  assert (Hread : JS.readDigits 10 (String c rest) None = Some v).
  { cbn [JS.readDigits]. rewrite (radixDigit_decimal _ Hc).
    apply readDigits_decimal. rewrite <- Hrest. f_equal. }
  destruct (decimal_digit_facts c Hc) as (Hw & Hs & _).
  split; [exact Hread |]. split.
  - unfold JS.parseInt. cbn [JS.trimStart]. rewrite Hw, Hs.
    cbv beta iota zeta delta [Z.eqb Z.ltb Z.compare Pos.eqb Pos.compare Pos.compare_cont negb andb orb].
    rewrite Hread. f_equal; lia.
  - unfold JS.parseInt.
    change (JS.trimStart (String "-" (String c rest))) with (String "-" (String c rest)).
    change (JS.stripSign (String "-" (String c rest))) with (-1, String c rest).
    cbv beta iota zeta delta [Z.eqb Z.ltb Z.compare Pos.eqb Pos.compare Pos.compare_cont negb andb orb].
    rewrite Hread. f_equal; lia.
Qed.

End Literals.

(** X10: the immediate resolver reads a decimal literal as its value, a
    decimal literal after a minus sign as the negated value, and a string
    of hex digits after [$] as its hexadecimal value (values below 2^53). *)
Theorem parseImmediate_literals (digits : string) (v : Z) :
  digits <> "" -> 0 <= v < 2 ^ 53 ->
  (decimalValue 0 digits = Some v ->
   parseImmediate (Str digits) = Ret (Int v)
   /\ parseImmediate (Str ("-" ++ digits)) = Ret (Int (- v)))
  /\ (hexadecimalValue 0 digits = Some v ->
      parseImmediate (Str ("$" ++ digits)) = Ret (Int v)).
Proof.
  intros Hne _. destruct digits as [| c rest]; [contradiction |].
  cbn [append]. split.
  - intros H. destruct (parseInt10_decimal c rest v H) as (_ & Hpos & Hneg).
    apply decimalValue_head in H. destruct H as [Hc _].
    destruct (decimal_digit_facts c Hc) as (_ & _ & Hdollar).
    split.
    + unfold parseImmediate. cbn [JS.first]. rewrite <- Hpos.
      each_char c; first [exfalso; apply Hdollar; reflexivity | reflexivity].
    + unfold parseImmediate. cbn [JS.first]. now rewrite Hneg.
  - intros H. unfold parseImmediate. cbn [JS.first].
    now rewrite substrFrom_tail, (parseInt_hex c rest v H).
Qed.

Lemma parseImmediate_literals_witness :
  "1D" <> "" /\ 0 <= 29 < 2 ^ 53 /\ hexadecimalValue 0 "1D" = Some 29
  /\ parseImmediate (Str ("$" ++ "1D")) = Ret (Int 29).
Proof.
  assert (Hne : "1D" <> "") by discriminate.
  assert (Hv : 0 <= 29 < 2 ^ 53) by lia.
  split; [exact Hne |]. split; [exact Hv |]. split; [reflexivity |].
  apply (proj2 (parseImmediate_literals "1D" 29 Hne Hv)). reflexivity.
Defined.

(** ** Labels and comments *)

Section LineParser.

(** What [parseInstruction] makes of the text between label and comment. *)
Lemma parseInstruction_slice (line body : string) :
  JS.substr line
    (if JS.includes line ":" then JS.indexOf line ":" + 1 else 0)
    ((if JS.includes line ";" then JS.indexOf line ";" else JS.len line)
     - (if JS.includes line ":" then JS.indexOf line ":" + 1 else 0))
  = body ->
  JS.includes body ":" = false -> JS.includes body ";" = false ->
  parseInstruction line = parseInstruction body.
Proof.
  intros Hslice Hcolon Hsemi.
  unfold parseInstruction. cbv zeta.
  rewrite Hslice, Hcolon, Hsemi, Z.sub_0_r, substr_all. reflexivity.
Qed.

Lemma split_nonempty (c : ascii) (s : string) : JS.split c s <> [].
Proof.
  induction s as [| a s IH]; cbn [JS.split]; [discriminate |].
  destruct (Ascii.eqb a c); [discriminate |].
  destruct (JS.split c s); [contradiction | discriminate].
Qed.

End LineParser.

(** X11: a label and a comment leave the instruction as it is: a line
    [label:body;comment] is parsed as [body], when neither the label nor the
    body holds a colon or a semicolon; so is a line with the label only, and
    a line with the comment only when the comment holds no colon. *)
Theorem parseInstruction_label_comment (label body comment : string) :
  JS.includes label ":" = false -> JS.includes label ";" = false ->
  JS.includes body ":" = false -> JS.includes body ";" = false ->
  parseInstruction (label ++ ":" ++ body ++ ";" ++ comment) = parseInstruction body
  /\ parseInstruction (label ++ ":" ++ body) = parseInstruction body
  /\ (JS.includes comment ":" = false ->
      parseInstruction (body ++ ";" ++ comment) = parseInstruction body).
Proof.
  intros Hlc Hls Hbc Hbs. cbn [append].
  assert (Hsemi : JS.includes (label ++ String ":" body) ";" = false).
  { rewrite includes_app_absent by assumption.
    rewrite includes_cons. exact Hbs. }
  split; [| split]; [| | intros Hcc]; apply parseInstruction_slice; try assumption.
  - destruct (indexOf_first ":" label (body ++ String ";" comment) Hlc) as [-> ->].
    replace (label ++ String ":" (body ++ String ";" comment))
      with ((label ++ String ":" body) ++ String ";" comment)
      by (rewrite append_assoc; reflexivity).
    destruct (indexOf_first ";" _ comment Hsemi) as [-> ->].
    replace (JS.len (label ++ String ":" body) - (JS.len label + 1)) with (JS.len body)
      by (rewrite len_app, len_cons; lia).
    replace (JS.len label + 1) with (JS.len (label ++ ":"))
      by (rewrite len_app; reflexivity).
    replace ((label ++ String ":" body) ++ String ";" comment)
      with ((label ++ ":") ++ body ++ String ";" comment)
      by (rewrite !append_assoc; reflexivity).
    apply substr_mid.
  - destruct (indexOf_first ":" label body Hlc) as [-> ->].
    rewrite Hsemi.
    replace (JS.len (label ++ String ":" body) - (JS.len label + 1)) with (JS.len body)
      by (rewrite len_app, len_cons; lia).
    replace (JS.len label + 1) with (JS.len (label ++ ":"))
      by (rewrite len_app; reflexivity).
    pose proof (substr_mid (label ++ ":") body "") as H.
    rewrite append_nil_r, append_assoc in H. exact H.
  - rewrite (includes_app_absent ":" body) by assumption.
    rewrite includes_cons, Hcc. cbn [Ascii.eqb Bool.eqb orb].
    destruct (indexOf_first ";" body comment Hbs) as [-> ->].
    rewrite Z.sub_0_r. apply substr_prefix.
Qed.

Lemma parseInstruction_label_comment_witness :
  JS.includes "target" ":" = false /\ JS.includes "target" ";" = false
  /\ JS.includes " add R3, R2, R3 " ":" = false
  /\ JS.includes " add R3, R2, R3 " ";" = false
  /\ parseInstruction ("target" ++ ":" ++ " add R3, R2, R3 " ++ ";" ++ " R3 = $CC")
     = parseInstruction " add R3, R2, R3 ".
Proof.
  repeat (split; [reflexivity |]).
  apply (parseInstruction_label_comment "target" " add R3, R2, R3 " " R3 = $CC");
    reflexivity.
Defined.

(** X12: when the first semicolon of a line comes before its first colon (a
    colon in the comment of a line without label), nothing is left of the
    line: the instruction has the empty mnemonic and one empty operand, and
    the encoder answers with the warning for an unknown mnemonic. *)
Theorem parseInstruction_colon_in_comment (line : string) :
  JS.includes line ":" = true -> JS.includes line ";" = true ->
  JS.indexOf line ";" < JS.indexOf line ":" ->
  parseInstruction line = {| op := ""; params := [""] |}
  /\ assembleLine line = ([Warn "Unrecognized opcode: "], Ret [])
  /\ lineWord line = Int 0.
Proof.
  intros Hc Hs Hlt.
  assert (H : parseInstruction line = {| op := ""; params := [""] |}).
  { unfold parseInstruction. cbv zeta. rewrite Hc, Hs.
    rewrite (substr_nonpos line (JS.indexOf line ":" + 1)
               (JS.indexOf line ";" - (JS.indexOf line ":" + 1))) by lia.
    reflexivity. }
  unfold lineWord, assembleLine. rewrite H. repeat split.
Qed.

Lemma parseInstruction_colon_in_comment_witness :
  JS.includes "nop ; note: pause" ":" = true
  /\ JS.includes "nop ; note: pause" ";" = true
  /\ JS.indexOf "nop ; note: pause" ";" < JS.indexOf "nop ; note: pause" ":"
  /\ parseInstruction "nop ; note: pause" = {| op := ""; params := [""] |}.
Proof.
  assert (H : JS.indexOf "nop ; note: pause" ";" < JS.indexOf "nop ; note: pause" ":")
    by reflexivity.
  split; [reflexivity |]. split; [reflexivity |]. split; [exact H |].
  apply (parseInstruction_colon_in_comment "nop ; note: pause"); [reflexivity | reflexivity | exact H].
Defined.

(** X13: the operand list of a parsed line is never empty, so a mnemonic whose
    case reads at most one operand finds it: such a line never throws. *)
Theorem parseInstruction_params_nonempty (line : string) :
  (parseInstruction line).(params) <> []
  /\ ((operandsRead (parseInstruction line).(op) <= 1)%nat -> hasOperands line)
  /\ ((operandsRead (parseInstruction line).(op) <= 1)%nat ->
      exists out fs, assembleLine line = (out, Ret fs)).
Proof.
  assert (Hne : (parseInstruction line).(params) <> []).
  { unfold parseInstruction. cbv zeta. cbn [params].
    match goal with
    | |- map _ (JS.split ?c ?s) <> [] =>
        pose proof (split_nonempty c s); destruct (JS.split c s);
        [contradiction | discriminate]
    end. }
  assert (Hop : (operandsRead (parseInstruction line).(op) <= 1)%nat -> hasOperands line).
  { intros H. unfold hasOperands. cbv zeta.
    destruct ((parseInstruction line).(params)) as [| p ps]; [contradiction |].
    cbn [List.length]. lia. }
  split; [exact Hne |]. split; [exact Hop |].
  intros H. destruct (hasOperands_returns line (Hop H)) as [fs Hfs].
  destruct (assembleLine line) as [out r]. cbn [snd] in Hfs. subst r. eauto.
Qed.

Lemma parseInstruction_params_nonempty_witness :
  (operandsRead (parseInstruction "   jal   ").(op) <= 1)%nat
  /\ hasOperands "   jal   ".
Proof.
  assert (H : (operandsRead (parseInstruction "   jal   ").(op) <= 1)%nat)
    by (vm_compute; lia).
  split; [exact H |].
  apply (proj1 (proj2 (parseInstruction_params_nonempty "   jal   ")) H).
Defined.

(** X15: the report echoes a line without its comment. *)
Theorem reportLine_drops_comment (body comment : string) (word : number) :
  JS.includes body ";" = false ->
  reportLine (body ++ ";" ++ comment) word = reportLine body word.
Proof.
  intros H. unfold reportLine. cbv zeta. cbn [append].
  destruct (indexOf_first ";" body comment H) as [_ ->].
  rewrite (indexOf_absent _ _ H).
  pose proof (len_nonneg body).
  destruct (Z.eqb_spec (JS.len body) (-1)) as [Heq | _]; [lia |].
  cbn [Z.eqb]. now rewrite substr_prefix.
Qed.

Lemma reportLine_drops_comment_witness :
  JS.includes "    nop " ";" = false
  /\ reportLine ("    nop " ++ ";" ++ " wait") (Int 0) = reportLine "    nop " (Int 0).
Proof.
  split; [reflexivity |].
  apply (reportLine_drops_comment "    nop " " wait" (Int 0)). reflexivity.
Defined.

(** ** Missing operands *)

(** X1: for a mnemonic of the table the encoder throws exactly when the
    operand list is shorter than what the case of the mnemonic reads (2 for
    loads, stores, two-register instructions and branches, 3 for
    three-register and immediate instructions, 1 for one-register ones):
    the exception is a TypeError and nothing is written to the console. *)
Theorem assembleInstruction_throws_iff (mn : string) (ps : list string) :
  In mn (mnemonics OP_TABLE) ->
  ((exists out e, assembleInstruction {| op := mn; params := ps |} = (out, Throw e))
   <-> (List.length ps < operandsRead mn)%nat)
  /\ ((List.length ps < operandsRead mn)%nat ->
      assembleInstruction {| op := mn; params := ps |} = ([], Throw TypeError)).
Proof.
  intros Hin. split; [split |].
  - intros (out & e & H).
    destruct (Nat.le_gt_cases (operandsRead mn) (List.length ps)) as [Hle | Hgt];
      [| exact Hgt].
    destruct (assembleInstruction_table mn ps Hin Hle) as (fs & Heq & _).
    rewrite Heq in H. discriminate H.
  - intros Hlt. exists [], TypeError. now apply assembleInstruction_missing.
  - now apply assembleInstruction_missing.
Qed.

Lemma assembleInstruction_throws_iff_witness :
  In "st" (mnemonics OP_TABLE)
  /\ (List.length ["$58"] < operandsRead "st")%nat
  /\ assembleInstruction {| op := "st"; params := ["$58"] |} = ([], Throw TypeError).
Proof.
  assert (Hin : In "st" (mnemonics OP_TABLE)) by (cbn; tauto).
  assert (Hn : (List.length ["$58"] < operandsRead "st")%nat) by (vm_compute; lia).
  split; [exact Hin |]. split; [exact Hn |].
  apply (proj2 (assembleInstruction_throws_iff "st" ["$58"] Hin) Hn).
Defined.

Section Abort.




End Abort.



(** X17: in the variant [src/asm374.ts] the fields of a branch have 30 bits,
    whatever the operands, and the width check of its [main] reports them;
    a branch never throws there; every other mnemonic of the table gives
    32 bits, which the check accepts. *)
Theorem draft_widths (mn : string) (ps : list string) :
  In mn (mnemonics OP_TABLE) ->
  (forall out fields,
      Draft.assembleInstruction {| op := mn; params := ps |} = (out, Ret fields) ->
      bitSum fields = (if oneOf mn branches then 30 else 32)%N
      /\ Draft.checkBits fields
         = ((if oneOf mn branches then [Error "wrong number of bits"] else []),
            Ret tt))
  /\ (In mn branches ->
      exists fields,
        Draft.assembleInstruction {| op := mn; params := ps |} = ([], Ret fields)).
Proof.
  intros Hin. pose proof (draft_shape mn ps Hin) as Hshape. split.
  - intros out fields H. rewrite H in Hshape. destruct Hshape as [_ Hsum].
    split; [exact Hsum |].
    unfold Draft.checkBits. cbv zeta.
    change (fold_left (fun acc f => (acc + f.(bits))%N) fields 0%N)
      with (bitSum fields).
    rewrite Hsum. destruct (oneOf mn branches); reflexivity.
  - intros Hb.
    assert (Htrue : oneOf mn branches = true).
    { cbn [branches In] in Hb.
      repeat (destruct Hb as [<- | Hb]; [reflexivity |]). contradiction. }
    destruct (Draft.assembleInstruction {| op := mn; params := ps |}) as [out [fs | e]].
    + destruct Hshape as [-> _]. now exists fs.
    + destruct Hshape as [_ Hfalse]. congruence.
Qed.

Lemma draft_widths_witness :
  In "brzr" (mnemonics OP_TABLE) /\ In "brzr" branches
  /\ exists fields,
       Draft.assembleInstruction {| op := "brzr"; params := [] |} = ([], Ret fields).
Proof.
  assert (Hin : In "brzr" (mnemonics OP_TABLE)) by (cbn; tauto).
  assert (Hb : In "brzr" branches) by (cbn; tauto).
  split; [exact Hin |]. split; [exact Hb |].
  apply (proj2 (draft_widths "brzr" [] Hin) Hb).
Defined.

(** X18: the variant [src/asm374.ts] and the complete assembler encode every
    instruction alike, unknown mnemonics included, except loads, stores,
    immediate instructions and branches. *)
Theorem draft_agrees (mn : string) (ps : list string) :
  ~ In mn draftDiffers ->
  Draft.assembleInstruction {| op := mn; params := ps |}
  = assembleInstruction {| op := mn; params := ps |}.
Proof.
  intros H.
  assert (Hout : forall labels,
             (forall l, In l labels -> In l draftDiffers) ->
             oneOf mn labels = false).
  { intros labels Hsub. exact (oneOf_outside mn labels draftDiffers Hsub H). }
  assert (H1 : oneOf mn ["ld"; "ldi"] = false)
    by (apply Hout; intros l Hl; cbn in Hl |- *; tauto).
  assert (H2 : oneOf mn ["st"] = false)
    by (apply Hout; intros l Hl; cbn in Hl |- *; tauto).
  assert (H3 : oneOf mn ["addi"; "andi"; "ori"] = false)
    by (apply Hout; intros l Hl; cbn in Hl |- *; tauto).
  assert (H4 : oneOf mn ["brmi"; "brpl"; "brzr"; "brnz"] = false)
    by (apply Hout; intros l Hl; cbn in Hl |- *; tauto).
  unfold Draft.assembleInstruction, assembleInstruction. cbn [op params].
  rewrite H1, H2, H3, H4. reflexivity.
Qed.

Lemma draft_agrees_witness :
  ~ In "shr" draftDiffers
  /\ Draft.assembleInstruction {| op := "shr"; params := ["R2"; "R3"; "R0"] |}
     = assembleInstruction {| op := "shr"; params := ["R2"; "R3"; "R0"] |}.
Proof.
  assert (H : ~ In "shr" draftDiffers).
  { cbn. intros Hin.
    repeat (destruct Hin as [Hin | Hin]; [discriminate Hin |]). exact Hin. }
  split; [exact H |].
  apply (draft_agrees "shr" ["R2"; "R3"; "R0"] H).
Defined.
